(** * gen-isvalid: the validation code generator, embedded in Rocq

    A shallow embedding of [validation/generator.go] and [cmd/gen/main.go]:
    the syntax tree the generator walks, the type-signature renderer, the
    generic-parameter renderer, the code template, and the [Generate]
    pipeline over an explicit file system. *)

From Stdlib Require Import Ascii.
From stdpp Require Import gmap strings list.

Local Open Scope string_scope.
Local Open Scope stdpp_scope.

(** ** The parts of Go's [strings] package the generator calls *)

Module strings.

(** [strings.HasPrefix(s, prefix)]. *)
Definition HasPrefix (s prefix : string) : bool := String.prefix prefix s.

(** [s[n:]], for [n <= len(s)]. *)
Fixpoint drop (n : nat) (s : string) : string :=
  match n, s with
  | S k, String _ s' => drop k s'
  | _, _ => s
  end.

(** [s[:n]], for [n <= len(s)]. *)
Fixpoint take (n : nat) (s : string) : string :=
  match n, s with
  | S k, String c s' => String c (take k s')
  | _, _ => ""
  end.

(** [strings.HasSuffix(s, suffix)]. *)
Definition HasSuffix (s suffix : string) : bool :=
  (String.length suffix <=? String.length s)%nat &&
  String.eqb (drop (String.length s - String.length suffix) s) suffix.

(** [strings.TrimPrefix]: [s] without the leading [prefix], or [s] itself. *)
Definition TrimPrefix (s prefix : string) : string :=
  if HasPrefix s prefix then drop (String.length prefix) s else s.

(** [strings.TrimSuffix]: [s] without the trailing [suffix], or [s] itself. *)
Definition TrimSuffix (s suffix : string) : string :=
  if HasSuffix s suffix then take (String.length s - String.length suffix) s
  else s.

(** [strings.Contains(s, substr)]. *)
Fixpoint Contains (s substr : string) : bool :=
  HasPrefix s substr ||
  match s with
  | "" => false
  | String _ s' => Contains s' substr
  end.

(** [strings.Join(elems, sep)]. *)
Fixpoint Join (elems : list string) (sep : string) : string :=
  match elems with
  | [] => ""
  | [e] => e
  | e :: rest => e +:+ sep +:+ Join rest sep
  end.

(** The scan of [strings.Split] for a non-empty separator: left to right,
    cutting at each occurrence of [sep] and resuming after it ([skip]
    counts the bytes of the separator still to step over). *)
Fixpoint splitFrom (sep : string) (skip : nat) (s : string) : list string :=
  match s with
  | "" => [""]
  | String c s' =>
      match skip with
      | S k => splitFrom sep k s'
      | O =>
          if HasPrefix s sep
          then "" :: splitFrom sep (String.length sep - 1) s'
          else match splitFrom sep 0 s' with
               | p :: ps => String c p :: ps
               | [] => [String c ""]
               end
      end
  end.

(** With an empty separator Go explodes the string after each UTF-8
    sequence; on the byte strings of this embedding that is one piece per
    byte.  The generator only ever splits on [", "] and [" "]. *)
Fixpoint explode (s : string) : list string :=
  match s with
  | "" => []
  | String c s' => String c "" :: explode s'
  end.

(** [strings.Split(s, sep)]. *)
Definition Split (s sep : string) : list string :=
  match sep with
  | "" => explode s
  | _ => splitFrom sep 0 s
  end.

End strings.

(** ** The syntax tree ([go/ast]), as far as the generator looks at it *)

(** [ast.Field]: a declaration [Names Type]; no name for an embedded field,
    several for [A, B T]. *)
Record FieldOf (E : Type) : Type := mkField {
  Names : list string;
  Type_ : E;
}.
Arguments mkField {E} _ _.
Arguments Names {E} _.
Arguments Type_ {E} _.

(** The expression nodes [extractType] has no case for; [BasicLit] and
    [StructType] are constructors of [Expr] because [extractArrayLen] and
    [Generate] look inside them. *)
Inductive OtherKind : Type :=
  | BadExpr | Ellipsis | FuncLit | CompositeLit | ParenExpr | SliceExpr
  | TypeAssertExpr | CallExpr | UnaryExpr | BinaryExpr | KeyValueExpr
  | FuncType | ChanType.

(** [ast.Expr].  [ArrayType] with [Len = None] is a slice.  The methods of
    an [InterfaceType] and the children of the [OtherKind] nodes are never
    inspected and are left out. *)
#[warnings="-register-all"] Inductive Expr : Type :=
  | Ident (Name : string)
  | SelectorExpr (X : Expr) (Sel : string)
  | StarExpr (X : Expr)
  | ArrayType (Len : option Expr) (Elt : Expr)
  | MapType (Key Value : Expr)
  | InterfaceType
  | IndexExpr (X Index : Expr)
  | IndexListExpr (X : Expr) (Indices : list Expr)
  | BasicLit (Value : string)
  | StructType (Fields : list (FieldOf Expr))
  | OtherExpr (k : OtherKind).

Abbreviation Field := (FieldOf Expr).

(** [ast.TypeSpec] among the [ast.Spec] kinds; [TypeParams = None] is the
    nil field list. *)
Inductive Spec : Type :=
  | TypeSpec (Name : string) (TypeParams : option (list Field)) (Type' : Expr)
  | ImportSpec
  | ValueSpec.

(** [token.Token] of a general declaration. *)
Inductive Token : Type := IMPORT | CONST | TYPE | VAR.

(** [ast.Decl]; [Doc = None] is the nil comment group, otherwise the text of
    each comment of the group. *)
Inductive Decl : Type :=
  | GenDecl (Doc : option (list string)) (Tok : Token) (Specs : list Spec)
  | FuncDecl
  | BadDecl.

(** [ast.File]: the package name and the top-level declarations. *)
Record File : Type := mkFile {
  FileName : string;
  Decls : list Decl;
}.

(** ** Records the generator builds *)

Record FieldInfo : Type := mkFieldInfo {
  Name : string;
  Type' : string;
  IsPointer : bool;
}.

Record StructInfo : Type := mkStructInfo {
  SName : string;
  Fields : list FieldInfo;
  SPackageName : string;
  TypeParams : string;
  IsGeneric : bool;
}.

Global Instance FieldInfo_eq_dec : EqDecision FieldInfo.
Proof. solve_decision. Defined.

(** ** The type-signature renderer *)

(** [fmt.Sprintf("%T", expr)] on the nodes that reach the default case. *)
Definition kindName (k : OtherKind) : string :=
  match k with
  | BadExpr => "BadExpr" | Ellipsis => "Ellipsis" | FuncLit => "FuncLit"
  | CompositeLit => "CompositeLit" | ParenExpr => "ParenExpr"
  | SliceExpr => "SliceExpr" | TypeAssertExpr => "TypeAssertExpr"
  | CallExpr => "CallExpr" | UnaryExpr => "UnaryExpr"
  | BinaryExpr => "BinaryExpr" | KeyValueExpr => "KeyValueExpr"
  | FuncType => "FuncType" | ChanType => "ChanType"
  end.

(** [extractArrayLen]: the text of a literal length, the empty string for any
    other length expression. *)
Definition extractArrayLen (expr : Expr) : string :=
  match expr with
  | BasicLit Value => Value
  | _ => ""
  end.

(** [extractType].  [None] is the run-time panic of the unchecked type
    assertion that the operand [t.X] of a selector is an identifier. *)
Fixpoint extractType (expr : Expr) : option string :=
  match expr with
  | Ident Name => Some Name
  | SelectorExpr X Sel =>
      match X with
      | Ident pkg => Some (pkg +:+ "." +:+ Sel)
      | _ => None
      end
  | StarExpr X => x ← extractType X; Some ("*" +:+ x)
  | ArrayType None Elt => e ← extractType Elt; Some ("[]" +:+ e)
  | ArrayType (Some Len) Elt =>
      e ← extractType Elt; Some ("[" +:+ extractArrayLen Len +:+ "]" +:+ e)
  | MapType Key Value =>
      k ← extractType Key; v ← extractType Value;
      Some ("map[" +:+ k +:+ "]" +:+ v)
  | InterfaceType => Some "interface{}"
  | IndexExpr X Index =>
      x ← extractType X; i ← extractType Index;
      Some (x +:+ "[" +:+ i +:+ "]")
  | IndexListExpr X Indices =>
      indices ← mapM extractType Indices;
      x ← extractType X;
      Some (x +:+ "[" +:+ strings.Join indices ", " +:+ "]")
  | BasicLit _ => Some "*ast.BasicLit"
  | StructType _ => Some "*ast.StructType"
  | OtherExpr k => Some ("*ast." +:+ kindName k)
  end.

(** Type expressions as Go's grammar has them: a type name is an identifier
    or a qualified identifier [PackageName.identifier], so the operand of a
    selector is an identifier.  The length of an array is an ordinary
    expression and is not constrained. *)
Fixpoint isTypeExpr (expr : Expr) : bool :=
  match expr with
  | SelectorExpr X _ => match X with Ident _ => true | _ => false end
  | StarExpr X => isTypeExpr X
  | ArrayType _ Elt => isTypeExpr Elt
  | MapType Key Value => isTypeExpr Key && isTypeExpr Value
  | IndexExpr X Index => isTypeExpr X && isTypeExpr Index
  | IndexListExpr X Indices => isTypeExpr X && forallb isTypeExpr Indices
  | Ident _ | InterfaceType | BasicLit _ | StructType _ | OtherExpr _ => true
  end.

(** ** The generic-parameter renderer *)

(** One entry ["name constraint"] per name of one parameter group.  The
    constraint is rendered once per name, so a group without names renders
    nothing. *)
Definition paramTexts (param : Field) : option (list string) :=
  mapM (fun name =>
          paramType ← extractType (Type_ param);
          Some (name +:+ " " +:+ paramType))
       (Names param).

(** [extractTypeParams]: the declaration form ["[K comparable, V any]"]. *)
Definition extractTypeParams (typeParams : list Field) : option string :=
  params ← mapM paramTexts typeParams;
  Some ("[" +:+ strings.Join (concat params) ", " +:+ "]").

(** [parts[0]] of a split; [strings.Split] with a non-empty separator never
    returns an empty slice, so the index is always in range. *)
Definition firstPart (parts : list string) : string := default "" (head parts).

(** [extractTypeParamNames]: the names-only form ["[K, V]"], re-read from the
    rendered declaration form. *)
Definition extractTypeParamNames (typeParams : string) : string :=
  let inner := strings.TrimPrefix typeParams "[" in
  let inner := strings.TrimSuffix inner "]" in
  let params := strings.Split inner ", " in
  let paramNames := map (fun param => firstPart (strings.Split param " ")) params in
  "[" +:+ strings.Join paramNames ", " +:+ "]".

(** A name that holds neither a space nor a comma, as every Go identifier
    does. *)
Fixpoint plainName (name : string) : bool :=
  match name with
  | "" => true
  | String c rest =>
      negb (Ascii.eqb c " ") && negb (Ascii.eqb c ",") && plainName rest
  end.

(** The names of a type-parameter list, in declaration order. *)
Definition paramNames (typeParams : list Field) : list string :=
  flat_map Names typeParams.

(** What the declaration form holds per name: the name, a space, and a
    constraint text free of the delimiter. *)
Definition pieceOf (name piece : string) : Prop :=
  ∃ constraint, piece = name +:+ " " +:+ constraint ∧
                strings.Contains constraint ", " = false ∧
                plainName name = true.

(** ** The marker detector *)

(** [hasGenerateDirective] on the doc comment of the enclosing declaration. *)
Definition hasGenerateDirective (commentGroup : option (list string)) : bool :=
  match commentGroup with
  | None => false
  | Some comments =>
      existsb (fun text => strings.Contains text "//go:generate") comments
  end.

(** A type specification is eligible when it declares a struct and the doc
    comment of its declaration carries the directive. *)
Definition isEligible (doc : option (list string)) (spec : Spec) : bool :=
  match spec with
  | TypeSpec _ _ (StructType _) => hasGenerateDirective doc
  | _ => false
  end.

(** The eligible type specifications of a file, in the order declared. *)
Definition eligibleSpecs (node : File) : list Spec :=
  flat_map (λ decl, match decl with
                    | GenDecl doc TYPE specs => List.filter (isEligible doc) specs
                    | _ => []
                    end)
           (Decls node).

(** ** What the generator takes from its platform *)

(** The standard-library and operating-system services [Generate] and [main]
    call; none of them is code of this repository. *)
Class Platform : Type := {
  (** [unicode.IsUpper] on the first rune of a name that starts with a
      non-ASCII byte. *)
  unicode_IsUpper : string → bool;
  (** [parser.ParseFile] on the text of a file: the syntax tree, or the
      message of the syntax error. *)
  parser_ParseFile : string → string + File;
  (** [format.Source]: the canonical text, or the message of the error. *)
  format_Source : string → string + string;
  (** The error with which [os.WriteFile] refuses a path (a missing
      directory, a permission), if any. *)
  os_WriteFile_error : string → option string;
  (** [path/filepath]. *)
  filepath_Split : string → string * string;
  filepath_Base : string → string;
  filepath_Ext : string → string;
  filepath_Join : string → string → string;
}.

(** The file system: the content of every existing file, by path. *)
Abbreviation FS := (gmap string string).

Section Generator.
Context `{Platform}.

(** [ast.IsExported]: the first rune of the name is an upper-case letter. *)
Definition IsExported (name : string) : bool :=
  match name with
  | "" => false
  | String c _ =>
      if (Ascii.nat_of_ascii c <? 128)%nat
      then (65 <=? Ascii.nat_of_ascii c)%nat && (Ascii.nat_of_ascii c <=? 90)%nat
      else unicode_IsUpper name
  end.

(** The fields a struct declares that are exported and not embedded: every
    exported name of every field declaration, in declaration order. *)
Definition exportedNames (fields : list Field) : list string :=
  List.filter IsExported (flat_map Names fields).

(** The body of the loop over [structType.Fields.List]: the records one
    field declaration adds to [structInfo.Fields] (none or one); [None] is a
    panic of the renderer. *)
Definition extractField (field : Field) : option (list FieldInfo) :=
  match Names field with
  | [] => Some []
  | fieldName :: _ =>
      if negb (IsExported fieldName) then Some []
      else
        match Type_ field with
        | StarExpr X =>
            fieldType ← extractType X;
            Some [mkFieldInfo fieldName fieldType true]
        | t =>
            fieldType ← extractType t;
            Some [mkFieldInfo fieldName fieldType false]
        end
  end.

(** The field loop: the records of all declarations, in declaration order. *)
Definition extractFields (fields : list Field) : option (list FieldInfo) :=
  infos ← mapM extractField fields; Some (concat infos).

(** The body of the loop over [genDecl.Specs]: the struct record one type
    specification adds to [structs] (none or one). *)
Definition extractSpec (packageName : string) (doc : option (list string))
    (spec : Spec) : option (list StructInfo) :=
  match spec with
  | TypeSpec name tparams (StructType fields) =>
      if negb (hasGenerateDirective doc) then Some []
      else
        '(typeParams, isGeneric) ←
          match tparams with
          | Some (p :: ps) =>
              tp ← extractTypeParams (p :: ps); Some (tp, true)
          | _ => Some ("", false)
          end;
        infos ← extractFields fields;
        Some [mkStructInfo name infos packageName typeParams isGeneric]
  | _ => Some []
  end.

(** The body of the loop over [node.Decls]. *)
Definition extractDecl (packageName : string) (decl : Decl)
    : option (list StructInfo) :=
  match decl with
  | GenDecl doc TYPE specs =>
      found ← mapM (extractSpec packageName doc) specs; Some (concat found)
  | _ => Some []
  end.

(** The extraction phase of [Generate]: every marked struct of the file, in
    the order met. *)
Definition extractStructs (node : File) : option (list StructInfo) :=
  found ← mapM (extractDecl (FileName node)) (Decls node); Some (concat found).

End Generator.

(** ** The code template *)

(** The three characters of the template a string literal here cannot hold. *)
Definition LF : string := String (Ascii.ascii_of_nat 10) "".
Definition TAB : string := String (Ascii.ascii_of_nat 9) "".
Definition QUOTE : string := String (Ascii.ascii_of_nat 34) "".

Module Template.

(** [{{if .IsGeneric}}{{.TypeParams}}{{end}}] *)
Definition declForm (s : StructInfo) : string :=
  if IsGeneric s then TypeParams s else "".

(** [{{if .IsGeneric}}{{extractTypeParamNames .TypeParams}}{{end}}] *)
Definition useForm (s : StructInfo) : string :=
  if IsGeneric s then extractTypeParamNames (TypeParams s) else "".

(** The body of the first [range .Fields]: one member of the aggregate. *)
Definition member (f : FieldInfo) : string :=
  LF +:+ TAB +:+ Name f +:+ " " +:+ (if IsPointer f then "*" else "")
     +:+ Type' f.

(** The body of the second [range .Fields]: one initialiser of the
    constructed instance. *)
Definition initialiser (f : FieldInfo) : string :=
  LF +:+ TAB +:+ TAB +:+ Name f +:+ ": params." +:+ Name f +:+ ",".

(** The text inside [{{- if .IsPointer}} ... {{- end}}]. *)
Definition nilCheck (name : string) : string :=
  LF +:+ TAB +:+ "if params." +:+ name +:+ " == nil {"
     +:+ LF +:+ TAB +:+ TAB +:+ "errs = append(errs, errors.New(" +:+ QUOTE
     +:+ name +:+ " is required" +:+ QUOTE +:+ "))"
     +:+ LF +:+ TAB +:+ "}".

(** The body of the third [range .Fields]: the check of a pointer field,
    nothing for any other field. *)
Definition check (f : FieldInfo) : string :=
  if IsPointer f then nilCheck (Name f) else "".

(** All iterations of a [range] over the fields, one after the other. *)
Definition range (body : FieldInfo → string) (fields : list FieldInfo) : string :=
  foldr (λ f rest, body f +:+ rest) "" fields.

(** From the comment above the aggregate to its closing brace. *)
Definition aggregate (s : StructInfo) : string :=
  LF +:+ "// " +:+ SName s +:+ "Params is the parameter struct for creating a "
     +:+ SName s
     +:+ LF +:+ "type " +:+ SName s +:+ "Params" +:+ declForm s +:+ " struct {"
     +:+ range member (Fields s)
     +:+ LF +:+ "}" +:+ LF.

(** From the comment above the constructor to its closing brace. *)
Definition constructor (s : StructInfo) : string :=
  LF +:+ "// New" +:+ SName s +:+ " creates a new " +:+ SName s
     +:+ LF +:+ "func New" +:+ SName s +:+ declForm s
     +:+ "(params " +:+ SName s +:+ "Params" +:+ useForm s +:+ ") (*"
     +:+ SName s +:+ useForm s +:+ ", error) {"
     +:+ LF +:+ TAB +:+ "if err := isValid" +:+ SName s +:+ "Params"
     +:+ useForm s +:+ "(params); err != nil {"
     +:+ LF +:+ TAB +:+ TAB +:+ "return nil, err"
     +:+ LF +:+ TAB +:+ "}"
     +:+ LF
     +:+ LF +:+ TAB +:+ "return &" +:+ SName s +:+ useForm s +:+ "{"
     +:+ range initialiser (Fields s)
     +:+ LF +:+ TAB +:+ "}, nil"
     +:+ LF +:+ "}" +:+ LF.

(** From the comment above the validator to its closing brace. *)
Definition validator (s : StructInfo) : string :=
  LF +:+ "// isValid" +:+ SName s +:+ "Params validates the " +:+ SName s
     +:+ "Params"
     +:+ LF +:+ "func isValid" +:+ SName s +:+ "Params" +:+ declForm s
     +:+ "(params " +:+ SName s +:+ "Params" +:+ useForm s +:+ ") error {"
     +:+ LF +:+ TAB +:+ "var errs []error"
     +:+ range check (Fields s)
     +:+ LF +:+ TAB +:+ "return errors.Join(errs...)"
     +:+ LF +:+ "}" +:+ LF.

(** The body of [range .Structs]: the triad of one struct. *)
Definition triad (s : StructInfo) : string :=
  aggregate s +:+ constructor s +:+ validator s.

(** The text before [range .Structs]. *)
Definition preamble (packageName : string) : string :=
  "// Code generated by validation-gen; DO NOT EDIT." +:+ LF
     +:+ LF +:+ "package " +:+ packageName +:+ LF
     +:+ LF +:+ "import (" +:+ LF
     +:+ TAB +:+ QUOTE +:+ "errors" +:+ QUOTE +:+ LF
     +:+ ")" +:+ LF
     +:+ LF.

(** The text after [range .Structs]: the line ends around the three helper
    templates, which are defined and never invoked. *)
Definition trailer : string :=
  LF +:+ LF +:+ LF +:+ LF +:+ LF +:+ LF +:+ LF.

(** The template executed on [PackageName] and [Structs]. *)
Definition execute (packageName : string) (structs : list StructInfo) : string :=
  preamble packageName
     +:+ foldr (λ s rest, triad s +:+ rest) "" structs
     +:+ trailer.

End Template.

(** [generateCode].  The template is a constant that parses, and executing it
    on struct records calls nothing that fails, so neither error return of
    the Go function is taken. *)
Definition generateCode (packageName : string) (structs : list StructInfo) : string :=
  Template.execute packageName structs.

(** ** The emitted functions, read as Go *)

(** The two functions the template emits per struct are built from five
    statement forms.  This module gives those forms their text (the text of
    the template) and their meaning (Go's), so that what an emitted function
    does can be stated and not only how it is spelled. *)
Module Emitted.

(** Go error values: [errors.New] and the composite of [errors.Join]. *)
#[warnings="-register-all"] Inductive error : Type :=
  | errorString (s : string)
  | joinError (errs : list error).

Definition errors_New (text : string) : error := errorString text.

(** [errors.Join(errs...)]: nil when there is no error to join.  (Go's
    [Join] also discards nil arguments; the emitted code appends only the
    results of [errors.New].) *)
Definition errors_Join (errs : list error) : option error :=
  match errs with
  | [] => None
  | _ => Some (joinError errs)
  end.

(** The value of a member: the nil pointer, or any other value. *)
Inductive value : Type := Nil | Val (v : nat).

Definition isNil (v : value) : bool :=
  match v with Nil => true | Val _ => false end.

(** A parameter aggregate, read through its selectors [params.F]. *)
Definition aggregate : Type := string → value.

(** A composite literal [&T{F: v, ...}]: the type and the initialised
    fields, in the order written. *)
Definition instance : Type := string * list (string * value).

Inductive stmt : Type :=
  (** [var errs []error] *)
  | DeclErrs
  (** [if params.F == nil { errs = append(errs, errors.New("msg")) }] *)
  | IfNilAppend (field msg : string)
  (** [return errors.Join(errs...)] *)
  | ReturnJoin
  (** [if err := callee[targs](params); err != nil { return nil, err }] *)
  | IfErrReturn (callee targs : string)
  (** [return &T{F: params.G, ...}, nil] *)
  | ReturnNew (typ : string) (inits : list (string * string)).

Record func : Type := mkFunc {
  fname : string;       (* name *)
  tparams : string;     (* declared type parameters *)
  ptype : string;       (* type of the one parameter, [params] *)
  results : string;     (* result list *)
  body : list stmt;
}.

Definition printInit (init : string * string) : string :=
  LF +:+ TAB +:+ TAB +:+ init.1 +:+ ": params." +:+ init.2 +:+ ",".

Definition printStmt (st : stmt) : string :=
  match st with
  | DeclErrs => LF +:+ TAB +:+ "var errs []error"
  | IfNilAppend field msg =>
      LF +:+ TAB +:+ "if params." +:+ field +:+ " == nil {"
         +:+ LF +:+ TAB +:+ TAB +:+ "errs = append(errs, errors.New("
         +:+ QUOTE +:+ msg +:+ QUOTE +:+ "))"
         +:+ LF +:+ TAB +:+ "}"
  | ReturnJoin => LF +:+ TAB +:+ "return errors.Join(errs...)"
  | IfErrReturn callee targs =>
      LF +:+ TAB +:+ "if err := " +:+ callee +:+ targs +:+ "(params); err != nil {"
         +:+ LF +:+ TAB +:+ TAB +:+ "return nil, err"
         +:+ LF +:+ TAB +:+ "}" +:+ LF
  | ReturnNew typ inits =>
      LF +:+ TAB +:+ "return &" +:+ typ +:+ "{"
         +:+ foldr (λ i rest, printInit i +:+ rest) "" inits
         +:+ LF +:+ TAB +:+ "}, nil"
  end.

Definition print (f : func) : string :=
  "func " +:+ fname f +:+ tparams f +:+ "(params " +:+ ptype f +:+ ") " +:+ results f
     +:+ " {"
     +:+ foldr (λ st rest, printStmt st +:+ rest) "" (body f)
     +:+ LF +:+ "}".

(** What a call returns: the one result of a function of result type
    [error], or the two results of a constructor. *)
Inductive result : Type :=
  | RetError (err : option error)
  | RetNew (inst : option instance) (err : option error).

(** Running a body on [params], statement by statement, with the errors
    appended so far; [funcs] resolves the name of a callee to what it returns.  [None]:
    the body calls an unknown function or ends without a return. *)
Fixpoint exec (funcs : string → option (aggregate → option error))
    (params : aggregate) (errs : list error) (stmts : list stmt)
    : option result :=
  match stmts with
  | [] => None
  | DeclErrs :: rest => exec funcs params [] rest
  | IfNilAppend field msg :: rest =>
      exec funcs params
           (if isNil (params field) then errs ++ [errors_New msg] else errs)
           rest
  | ReturnJoin :: _ => Some (RetError (errors_Join errs))
  | IfErrReturn callee _ :: rest =>
      match funcs callee with
      | None => None
      | Some f =>
          match f params with
          | Some err => Some (RetNew None (Some err))
          | None => exec funcs params errs rest
          end
      end
  | ReturnNew typ inits :: _ =>
      Some (RetNew (Some (typ, map (λ i, (i.1, params i.2)) inits)) None)
  end.

Definition call funcs (f : func) (params : aggregate) : option result :=
  exec funcs params [] (body f).

End Emitted.

(** The check the template emits for a pointer field. *)
Definition requiredCheck (f : FieldInfo) : Emitted.stmt :=
  Emitted.IfNilAppend (Name f) (Name f +:+ " is required").

(** The validator the template emits for a struct, as a function. *)
Definition validatorFunc (s : StructInfo) : Emitted.func :=
  Emitted.mkFunc
    ("isValid" +:+ SName s +:+ "Params")
    (Template.declForm s)
    (SName s +:+ "Params" +:+ Template.useForm s)
    "error"
    (Emitted.DeclErrs
       :: flat_map (λ f, if IsPointer f then [requiredCheck f] else []) (Fields s)
       ++ [Emitted.ReturnJoin]).

(** The constructor the template emits for a struct, as a function. *)
Definition constructorFunc (s : StructInfo) : Emitted.func :=
  Emitted.mkFunc
    ("New" +:+ SName s)
    (Template.declForm s)
    (SName s +:+ "Params" +:+ Template.useForm s)
    ("(*" +:+ SName s +:+ Template.useForm s +:+ ", error)")
    [Emitted.IfErrReturn ("isValid" +:+ SName s +:+ "Params") (Template.useForm s);
     Emitted.ReturnNew (SName s +:+ Template.useForm s)
                       (map (λ f, (Name f, Name f)) (Fields s))].

(** What a call of the emitted validator returns. *)
Definition runValidator (s : StructInfo) (params : Emitted.aggregate)
    : option Emitted.error :=
  match Emitted.call (λ _, None) (validatorFunc s) params with
  | Some (Emitted.RetError err) => err
  | _ => None
  end.

(** The emitted file as the constructor sees it: the name of the validator
    resolves to the emitted validator. *)
Definition linked (s : StructInfo)
    : string → option (Emitted.aggregate → option Emitted.error) :=
  λ name, if String.eqb name (Emitted.fname (validatorFunc s))
          then Some (runValidator s) else None.

(** ** The generator *)

Record Generator : Type := mkGenerator {
  InputFile : string;
  OutputFile : string;
  PackageName : string;
}.

(** How a call of [Generate] ends: it returns an error (or nil), or the
    renderer panics. *)
Inductive Outcome : Type :=
  | Returned (err : option string)
  | Panicked.

(** The message of [Generate] when no marked struct was found. *)
Definition NoMatchError : string := "no structs with go:generate directive found".

(** One argument of the command line, already cut into flag name and value
    ([-input x.go], [-output=y.go], [-force]). *)
Inductive Arg : Type := Flag (name : string) (value : option string).

(** How a run of the command ends. *)
Inductive Run : Type :=
  (** [flag.Parse] stops the run: status 2 and the message of the error, or
      status 0 when the usage text was asked for *)
  | FlagError (code : nat) (message : string)
  (** [main] prints one line and exits with this status *)
  | Exited (code : nat) (output : string)
  (** the process dies in a panic *)
  | Crashed.

Section Pipeline.
Context `{Platform}.

(** [NewGenerator]. *)
Definition NewGenerator (inputFile : string) : Generator :=
  let '(dir, filename) := filepath_Split inputFile in
  let base := strings.TrimSuffix filename (filepath_Ext filename) in
  let outputFile := filepath_Join dir (base +:+ "_gen.go") in
  mkGenerator inputFile outputFile "".

(** [os.WriteFile]: the file is created or replaced, unless the path is
    refused. *)
Definition os_WriteFile (fs : FS) (name data : string) : string + FS :=
  match os_WriteFile_error name with
  | Some err => inl err
  | None => inr (<[name := data]> fs)
  end.

(** [parser.ParseFile] on a path: reads the file, then parses its text. *)
Definition ParseFile (fs : FS) (filename : string) : string + File :=
  match fs !! filename with
  | None => inl ("open " +:+ filename +:+ ": no such file or directory")
  | Some src => parser_ParseFile src
  end.

(** [Generate]: the outcome, the generator (whose [PackageName] the call
    sets) and the file system afterwards. *)
Definition Generate (g : Generator) (fs : FS) : Outcome * Generator * FS :=
  match ParseFile fs (InputFile g) with
  | inl err => (Returned (Some ("parsing file: " +:+ err)), g, fs)
  | inr node =>
      let g := mkGenerator (InputFile g) (OutputFile g) (FileName node) in
      match extractStructs node with
      | None => (Panicked, g, fs)
      | Some structs =>
          if (length structs =? 0)%nat
          then (Returned (Some NoMatchError), g, fs)
          else
            let code := generateCode (PackageName g) structs in
            match format_Source code with
            | inl err =>
                (Returned (Some ("formatting generated code: " +:+ err)), g, fs)
            | inr formattedCode =>
                match os_WriteFile fs (OutputFile g) formattedCode with
                | inl err =>
                    (Returned (Some ("writing output file: " +:+ err)), g, fs)
                | inr fs' => (Returned None, g, fs')
                end
            end
      end
  end.

(** The two flags [main] defines, with their values so far. *)
Record Flags : Type := mkFlags { inputFlag : string; outputFlag : string }.

(** [flag.Parse] over the flags [input] and [output]: any other flag name,
    or a flag without its value, ends the run. *)
Fixpoint flag_Parse (flags : Flags) (args : list Arg) : nat * string + Flags :=
  match args with
  | [] => inr flags
  | Flag name value :: rest =>
      if String.eqb name "input" then
        match value with
        | Some v => flag_Parse (mkFlags v (outputFlag flags)) rest
        | None => inl (2, "flag needs an argument: -" +:+ name)
        end
      else if String.eqb name "output" then
        match value with
        | Some v => flag_Parse (mkFlags (inputFlag flags) v) rest
        | None => inl (2, "flag needs an argument: -" +:+ name)
        end
      else if String.eqb name "help" || String.eqb name "h" then
        inl (0, "flag: help requested")
      else inl (2, "flag provided but not defined: -" +:+ name)
  end.

(** [main], given the value of the environment variable [GOFILE] and the
    command line. *)
Definition main (GOFILE : string) (args : list Arg) (fs : FS) : Run * FS :=
  let defaultInput := if String.eqb GOFILE "" then "./example.go" else GOFILE in
  match flag_Parse (mkFlags defaultInput "") args with
  | inl (code, message) => (FlagError code message, fs)
  | inr flags =>
      let inputFile := inputFlag flags in
      let outputFile :=
        if String.eqb (outputFlag flags) "" then
          let '(dir, filename) := filepath_Split inputFile in
          let base := filepath_Base filename in
          let ext := filepath_Ext base in
          let name := strings.take (String.length base - String.length ext) base in
          filepath_Join dir (name +:+ "_gen.go")
        else outputFlag flags in
      let generator := NewGenerator inputFile in
      let generator :=
        if negb (String.eqb outputFile "")
        then mkGenerator (InputFile generator) outputFile (PackageName generator)
        else generator in
      match Generate generator fs with
      | (Returned (Some err), _, fs') =>
          (Exited 1 ("Error: " +:+ err +:+ LF), fs')
      | (Returned None, g', fs') =>
          (Exited 0 ("Successfully generated " +:+ OutputFile g' +:+ " from "
                       +:+ InputFile g' +:+ LF), fs')
      | (Panicked, _, fs') => (Crashed, fs')
      end
  end.

End Pipeline.

(** ** A platform and input files to run the generator on *)

Module Demo.

(** [type Pair struct { A, B *Client }], marked. *)
Definition pairSource : string :=
  "package demo" +:+ LF +:+ LF +:+ "//go:generate gen" +:+ LF
    +:+ "type Pair struct {" +:+ LF +:+ TAB +:+ "A, B *Client" +:+ LF +:+ "}" +:+ LF.

Definition pairStruct : Expr :=
  StructType [mkField ["A"; "B"] (StarExpr (Ident "Client"))].

Definition pairFile : File :=
  mkFile "demo"
    [GenDecl (Some ["//go:generate gen"]) TYPE [TypeSpec "Pair" None pairStruct]].

(** The input of [TestNoStructs]: a struct without the directive. *)
Definition plainSource : string :=
  "package test" +:+ LF +:+ LF +:+ "// TestService is a test service" +:+ LF
    +:+ "type TestService struct {" +:+ LF +:+ TAB +:+ "client *Client" +:+ LF
    +:+ TAB +:+ "config *Config" +:+ LF +:+ "}" +:+ LF.

Definition plainFile : File :=
  mkFile "test"
    [GenDecl (Some ["// TestService is a test service"]) TYPE
       [TypeSpec "TestService" None
          (StructType [mkField ["client"] (StarExpr (Ident "Client"));
                       mkField ["config"] (StarExpr (Ident "Config"))])]].

(** [Service{ Client *Client; Timeout int }] of the specification, with an
    embedded and an unexported field added. *)
Definition serviceFields : list Field :=
  [mkField ["Client"] (StarExpr (Ident "Client"));
   mkField [] (Ident "Mutex");
   mkField ["timeout"] (Ident "int");
   mkField ["Timeout"] (Ident "int")].

Definition serviceSource : string :=
  "package example" +:+ LF +:+ LF +:+ "//go:generate gen" +:+ LF
    +:+ "type Service struct {" +:+ LF +:+ TAB +:+ "Client *Client" +:+ LF
    +:+ TAB +:+ "Mutex" +:+ LF +:+ TAB +:+ "timeout int" +:+ LF
    +:+ TAB +:+ "Timeout int" +:+ LF +:+ "}" +:+ LF.

Definition serviceFile : File :=
  mkFile "example"
    [GenDecl (Some ["//go:generate gen"]) TYPE
       [TypeSpec "Service" None (StructType serviceFields)]].

(** A parser that knows the three files above. *)
Definition parse (src : string) : string + File :=
  if String.eqb src pairSource then inr pairFile
  else if String.eqb src plainSource then inr plainFile
  else if String.eqb src serviceSource then inr serviceFile
  else inl "1:1: expected 'package'".

(** The path up to and including the last slash, and what follows it. *)
Fixpoint split (path : string) : string * string :=
  match path with
  | "" => ("", "")
  | String c rest =>
      let '(dir, file) := split rest in
      if negb (String.eqb dir "") then (String c dir, file)
      else if String.eqb (String c "") "/" then (String c "", file)
      else ("", String c file)
  end.

(** The suffix of a file name from its last dot on. *)
Fixpoint ext (name : string) : string :=
  match name with
  | "" => ""
  | String c rest =>
      if negb (String.eqb (ext rest) "") then ext rest
      else if String.eqb (String c "") "." then name
      else ""
  end.

(** ASCII names only, a formatter that accepts every text as it is, a disk
    that accepts every write, and paths without [.] or [..] elements. *)
Definition platform : Platform := {|
  unicode_IsUpper := λ _, false;
  parser_ParseFile := parse;
  format_Source := λ code, inr code;
  os_WriteFile_error := λ _, None;
  filepath_Split := split;
  filepath_Base := λ name, if String.eqb name "" then "." else name;
  filepath_Ext := ext;
  filepath_Join := λ dir name, dir +:+ name;
|}.

(** A disk with the marked input and an output file from an earlier run. *)
Definition disk : FS :=
  {[ "pkg/pair.go" := pairSource; "pkg/pair_gen.go" := "package demo // edited by hand" ]}.

(** A disk with the unmarked input of [TestNoStructs] and an output file. *)
Definition plainDisk : FS :=
  {[ "test.go" := plainSource; "test_gen.go" := "package test" ]}.

(** The record extracted from [Service], and an aggregate value whose
    [Client] is nil. *)
Definition serviceInfo : StructInfo :=
  mkStructInfo "Service"
    [mkFieldInfo "Client" "Client" true; mkFieldInfo "Timeout" "int" false]
    "example" "" false.

Definition serviceParams : Emitted.aggregate :=
  λ field, if String.eqb field "Client" then Emitted.Nil else Emitted.Val 30.

(** The constraint [Store[K, V]], whose rendering holds the delimiter. *)
Definition storeParams : list Field :=
  [mkField ["S"] (IndexListExpr (Ident "Store") [Ident "K"; Ident "V"]);
   mkField ["K"] (Ident "comparable");
   mkField ["V"] (Ident "any")].

End Demo.

(** ** Vocabulary of the further properties *)

(** The declared name of a type specification. *)
Definition specName (spec : Spec) : string :=
  match spec with
  | TypeSpec name _ _ => name
  | _ => ""
  end.

(** A parameter list with every group [K, V C] cut into [K C] and [V C]. *)
Definition ungroup (typeParams : list Field) : list Field :=
  flat_map (λ param, map (λ name, mkField [name] (Type_ param)) (Names param))
           typeParams.

(** The rendered parameters of a list, one text per name. *)
Definition paramPieces (typeParams : list Field) : option (list string) :=
  groups ← mapM paramTexts typeParams; Some (concat groups).

(** Every type a struct specification hands to the renderer is a type
    expression: the constraints of its type parameters and the types of its
    fields. *)
Definition typedSpec (spec : Spec) : bool :=
  match spec with
  | TypeSpec _ tparams (StructType fields) =>
      forallb (λ param, isTypeExpr (Type_ param)) (default [] tparams)
      && forallb (λ field, isTypeExpr (Type_ field)) fields
  | _ => true
  end.

Definition typedFile (node : File) : bool :=
  forallb (λ decl, match decl with
                   | GenDecl _ _ specs => forallb typedSpec specs
                   | _ => true
                   end)
          (Decls node).

(** [CacheService] of the repository's generic example file. *)
Definition cacheFile : File :=
  mkFile "example"
    [GenDecl
       (Some ["// CacheService uses both generics and interfaces"; "//";
              "//go:generate go run github.com/stijmetkii/validation-gen/cmd/gen"])
       TYPE
       [TypeSpec "CacheService"
          (Some [mkField ["K"] (Ident "comparable"); mkField ["V"] (Ident "any")])
          (StructType
             [mkField ["Store"]
                (IndexListExpr (Ident "KeyValueStore") [Ident "K"; Ident "V"]);
              mkField ["Serializer"] (IndexExpr (Ident "Serializer") (Ident "V"));
              mkField ["TTL"] (Ident "int");
              mkField ["MaxSize"] (StarExpr (Ident "int"))])];
     GenDecl (Some ["// Serializer can convert between a type and bytes"]) TYPE
       [TypeSpec "Serializer" (Some [mkField ["T"] (Ident "any")]) InterfaceType]].

Definition cacheInfo : StructInfo :=
  mkStructInfo "CacheService"
    [mkFieldInfo "Store" "KeyValueStore[K, V]" false;
     mkFieldInfo "Serializer" "Serializer[V]" false;
     mkFieldInfo "TTL" "int" false;
     mkFieldInfo "MaxSize" "int" true]
    "example" "[K comparable, V any]" true.

(** The directive text. *)
Definition directive : string := "//go:generate".

(** A flag [main] defines. *)
Definition definedFlag (name : string) : bool :=
  String.eqb name "input" || String.eqb name "output".

(** * Properties *)

(** ** The type-signature renderer *)

(** Induction over expressions that also reaches the arguments of a
    multi-argument instantiation. *)
Lemma Expr_nested_ind (P : Expr → Prop) :
  (∀ n, P (Ident n)) →
  (∀ X sel, P X → P (SelectorExpr X sel)) →
  (∀ X, P X → P (StarExpr X)) →
  (∀ len elt, P elt → P (ArrayType len elt)) →
  (∀ k v, P k → P v → P (MapType k v)) →
  P InterfaceType →
  (∀ X i, P X → P i → P (IndexExpr X i)) →
  (∀ X args, P X → Forall P args → P (IndexListExpr X args)) →
  (∀ v, P (BasicLit v)) →
  (∀ fields, P (StructType fields)) →
  (∀ k, P (OtherExpr k)) →
  ∀ e, P e.
Proof.
  intros Hid Hsel Hstar Harr Hmap Hitf Hidx Hlist Hlit Hstruct Hother.
  fix IH 1. intros [n|X sel|X|len elt|k v| |X i|X args|v|fields|k].
  - apply Hid.
  - apply Hsel, IH.
  - apply Hstar, IH.
  - apply Harr, IH.
  - apply Hmap; apply IH.
  - apply Hitf.
  - apply Hidx; apply IH.
  - apply Hlist; [apply IH|].
    induction args as [|a args IHargs]; constructor; [apply IH | exact IHargs].
  - apply Hlit.
  - apply Hstruct.
  - apply Hother.
Qed.

Lemma mapM_extractType_total (args : list Expr) :
  Forall (λ e, isTypeExpr e = true → is_Some (extractType e)) args →
  forallb isTypeExpr args = true →
  is_Some (mapM extractType args).
Proof.
  induction 1 as [|a args Ha _ IH]; simpl; intros Hall; [by eexists|].
  apply andb_prop in Hall as [Hty Hrest].
  destruct (Ha Hty) as [ta ->]. destruct (IH Hrest) as [ts ->]. by eexists.
Qed.

(** On a type expression the renderer never panics. *)
Lemma extractType_is_Some (e : Expr) :
  isTypeExpr e = true → is_Some (extractType e).
Proof.
  induction e as [n|X sel IHX|X IHX|len elt IHelt|k v IHk IHv| |X i IHX IHi
                 |X args IHX IHargs|v|fields|k] using Expr_nested_ind;
    simpl; intros Hty; try by eexists.
  - destruct X; try discriminate. by eexists.
  - destruct (IHX Hty) as [t ->]. by eexists.
  - destruct (IHelt Hty) as [t ->]. destruct len; by eexists.
  - apply andb_prop in Hty as [Hk Hv].
    destruct (IHk Hk) as [tk ->], (IHv Hv) as [tv ->]. by eexists.
  - apply andb_prop in Hty as [HX Hi].
    destruct (IHX HX) as [tx ->], (IHi Hi) as [ti ->]. by eexists.
  - apply andb_prop in Hty as [HX Hargs].
    destruct (mapM_extractType_total args IHargs Hargs) as [ts ->].
    destruct (IHX HX) as [tx ->]. by eexists.
Qed.

(** Outside the type grammar the renderer can panic: a selector of a selector
    has no rendering. *)
Example extractType_selector_of_selector :
  extractType (SelectorExpr (SelectorExpr (Ident "a") "b") "c") = None.
Proof. reflexivity. Qed.

(** C5.  [extractType] is total on type expressions, and its result follows
    the rule of the node's kind: an identifier is its own text, a qualified
    name is [pkg.Name], a pointer is a star before the rendering of its
    target, a slice is [[]] before the rendering of its element, an array
    with a literal length is the literal's text between brackets before the
    rendering of its element, a map is [map[key]value], an interface type is
    the literal [interface{}], an instantiation is the base followed by the
    bracketed, comma-joined arguments, and every other node is the debug
    string that names its kind. *)
Theorem extractType_total_by_kind (e : Expr) (Hty : isTypeExpr e = true) :
  ∃ text, extractType e = Some text ∧
    match e with
    | Ident n => text = n
    | SelectorExpr X sel => ∃ pkg, X = Ident pkg ∧ text = pkg +:+ "." +:+ sel
    | StarExpr X => ∃ t, extractType X = Some t ∧ text = "*" +:+ t
    | ArrayType None elt => ∃ t, extractType elt = Some t ∧ text = "[]" +:+ t
    | ArrayType (Some len) elt =>
        ∃ t, extractType elt = Some t ∧
             ∀ lit, len = BasicLit lit → text = "[" +:+ lit +:+ "]" +:+ t
    | MapType k v =>
        ∃ tk tv, extractType k = Some tk ∧ extractType v = Some tv ∧
                 text = "map[" +:+ tk +:+ "]" +:+ tv
    | InterfaceType => text = "interface{}"
    | IndexExpr X i =>
        ∃ tx ti, extractType X = Some tx ∧ extractType i = Some ti ∧
                 text = tx +:+ "[" +:+ ti +:+ "]"
    | IndexListExpr X args =>
        ∃ tx ts, extractType X = Some tx ∧ mapM extractType args = Some ts ∧
                 text = tx +:+ "[" +:+ strings.Join ts ", " +:+ "]"
    | BasicLit _ => text = "*ast.BasicLit"
    | StructType _ => text = "*ast.StructType"
    | OtherExpr k => text = "*ast." +:+ kindName k
    end.
Proof.
  destruct (extractType_is_Some e Hty) as [text Htext].
  exists text. split; [exact Htext|].
  destruct e as [n|X sel|X|len elt|k v| |X i|X args|v|fields|k];
    simpl in Htext, Hty.
  - by injection Htext.
  - destruct X; try discriminate. eexists; split; [done|by injection Htext].
  - destruct (extractType X) as [t|]; [|discriminate].
    exists t. split; [done|by injection Htext].
  - destruct (extractType elt) as [t|] eqn:Helt.
    + destruct len as [len|]; exists t; (split; [done|]).
      * intros lit ->. by injection Htext.
      * by injection Htext.
    + destruct len; discriminate.
  - destruct (extractType k) as [tk|]; [|discriminate].
    destruct (extractType v) as [tv|]; [|discriminate].
    exists tk, tv. by injection Htext.
  - by injection Htext.
  - destruct (extractType X) as [tx|]; [|discriminate].
    destruct (extractType i) as [ti|]; [|discriminate].
    exists tx, ti. by injection Htext.
  - destruct (mapM extractType args) as [ts|]; [|discriminate].
    destruct (extractType X) as [tx|]; [|discriminate].
    exists tx, ts. by injection Htext.
  - by injection Htext.
  - by injection Htext.
  - by injection Htext.
Qed.

(** [map[string][4]*pkg.T] is rendered. *)
Lemma extractType_total_by_kind_witness :
  ∃ text,
    extractType (MapType (Ident "string")
                   (ArrayType (Some (BasicLit "4"))
                      (StarExpr (SelectorExpr (Ident "pkg") "T")))) = Some text ∧
    ∃ tk tv, extractType (Ident "string") = Some tk ∧
             extractType (ArrayType (Some (BasicLit "4"))
                            (StarExpr (SelectorExpr (Ident "pkg") "T"))) = Some tv ∧
             text = "map[" +:+ tk +:+ "]" +:+ tv.
Proof.
  apply (extractType_total_by_kind
           (MapType (Ident "string")
              (ArrayType (Some (BasicLit "4"))
                 (StarExpr (SelectorExpr (Ident "pkg") "T"))))).
  reflexivity.
Defined.

Example extractType_nested :
  extractType (MapType (Ident "string")
                 (ArrayType (Some (BasicLit "4"))
                    (StarExpr (SelectorExpr (Ident "pkg") "T"))))
  = Some "map[string][4]*pkg.T".
Proof. reflexivity. Qed.

Example extractType_instantiation :
  extractType (IndexListExpr (Ident "Store") [Ident "K"; StarExpr (Ident "V")])
  = Some "Store[K, *V]".
Proof. reflexivity. Qed.

Example extractType_func :
  extractType (OtherExpr FuncType) = Some "*ast.FuncType".
Proof. reflexivity. Qed.

(** C10.  An array whose length is not a basic literal loses its length:
    [extractArrayLen] returns the empty string, and the array is rendered
    with the very text of the slice of the same element. *)
Theorem array_length_not_literal (len elt : Expr)
    (Hlen : ∀ lit, len ≠ BasicLit lit) :
  extractArrayLen len = "" ∧
  extractType (ArrayType (Some len) elt)
    = (t ← extractType elt; Some ("[" +:+ "" +:+ "]" +:+ t)) ∧
  extractType (ArrayType (Some len) elt) = extractType (ArrayType None elt).
Proof.
  assert (extractArrayLen len = "") as Hempty.
  { destruct len; try reflexivity. by destruct (Hlen Value). }
  split; [exact Hempty|]. simpl. rewrite Hempty. split; reflexivity.
Qed.

(** [[N]int] is rendered as [[]int]. *)
Lemma array_length_not_literal_witness :
  extractArrayLen (Ident "N") = "" ∧
  extractType (ArrayType (Some (Ident "N")) (Ident "int"))
    = (t ← extractType (Ident "int"); Some ("[" +:+ "" +:+ "]" +:+ t)) ∧
  extractType (ArrayType (Some (Ident "N")) (Ident "int"))
    = extractType (ArrayType None (Ident "int")).
Proof.
  apply (array_length_not_literal (Ident "N") (Ident "int")).
  intros lit Heq. discriminate Heq.
Defined.

Example array_named_length :
  extractType (ArrayType (Some (Ident "N")) (Ident "int")) = Some "[]int".
Proof. reflexivity. Qed.

Example array_literal_length :
  extractType (ArrayType (Some (BasicLit "0x10")) (Ident "int")) = Some "[0x10]int".
Proof. reflexivity. Qed.

(** ** The field extractor *)

Section FieldExtractor.
Context `{Platform}.

(** An embedded field adds no record. *)
Lemma extractField_embedded (ty : Expr) : extractField (mkField [] ty) = Some [].
Proof. reflexivity. Qed.

(** A declaration whose first name is not exported adds no record. *)
Lemma extractField_unexported (first : string) (rest : list string) (ty : Expr) :
  IsExported first = false → extractField (mkField (first :: rest) ty) = Some [].
Proof. unfold extractField; simpl. by intros ->. Qed.

(** An included pointer field: flagged, and rendered without its star. *)
Lemma extractField_pointer (first : string) (rest : list string) (X : Expr) :
  IsExported first = true →
  extractField (mkField (first :: rest) (StarExpr X))
  = (t ← extractType X; Some [mkFieldInfo first t true]).
Proof. unfold extractField; simpl. by intros ->. Qed.

(** An included field of any other type: not flagged, rendered whole. *)
Lemma extractField_plain (first : string) (rest : list string) (ty : Expr) :
  IsExported first = true →
  (∀ X, ty ≠ StarExpr X) →
  extractField (mkField (first :: rest) ty)
  = (t ← extractType ty; Some [mkFieldInfo first t false]).
Proof.
  unfold extractField; simpl. intros -> Hty; simpl.
  destruct ty; try reflexivity. by destruct (Hty ty).
Qed.

(** C7.  At an included field exactly one leading pointer is detected and
    stripped: a field of type [*X] is recorded with [IsPointer = true] and
    the rendering of [X]; a field of any other type is recorded with
    [IsPointer = false] and the rendering of the whole type; every further
    pointer is rendered by [extractType] with its star, so [**T] is recorded
    as a pointer field of type [*T]. *)
Theorem field_pointer_stripped_once (name : string) (rest : list string)
    (ty : Expr) (t : string)
    (Hexported : IsExported name = true)
    (Hrendered : extractType ty = Some t) :
  extractField (mkField (name :: rest) (StarExpr ty))
    = Some [mkFieldInfo name t true] ∧
  extractField (mkField (name :: rest) (StarExpr (StarExpr ty)))
    = Some [mkFieldInfo name ("*" +:+ t) true] ∧
  extractType (StarExpr ty) = Some ("*" +:+ t) ∧
  ((∀ X, ty ≠ StarExpr X) →
   extractField (mkField (name :: rest) ty) = Some [mkFieldInfo name t false]).
Proof.
  repeat split.
  - rewrite extractField_pointer by done. by rewrite Hrendered.
  - rewrite extractField_pointer by done. simpl. by rewrite Hrendered.
  - simpl. by rewrite Hrendered.
  - intros Hplain. rewrite extractField_plain by done. by rewrite Hrendered.
Qed.

(** C9.  Of a field declaration with several names only the first is looked
    at: the declaration adds what the declaration of the first name alone
    would add, which is at most one record and carries the first name, and
    it adds nothing when the first name is unexported, whatever the other
    names are. *)
Theorem field_names_after_first_dropped (first : string) (rest : list string)
    (ty : Expr) :
  extractField (mkField (first :: rest) ty) = extractField (mkField [first] ty) ∧
  (∀ infos, extractField (mkField (first :: rest) ty) = Some infos →
            (length infos ≤ 1)%nat ∧ Forall (λ f, Name f = first) infos) ∧
  (IsExported first = false →
   extractField (mkField (first :: rest) ty) = Some []).
Proof.
  split; [reflexivity|]. split; [|apply extractField_unexported].
  unfold extractField; simpl. intros infos.
  destruct (IsExported first); simpl.
  - destruct ty; simpl;
      repeat match goal with
      | |- context [extractType ?e] => destruct (extractType e); simpl
      | |- context [mapM ?f ?l] => destruct (mapM f l); simpl
      | |- context [match ?x with Ident _ => _ | _ => _ end] => destruct x; simpl
      | |- context [match ?x with Some _ => _ | None => _ end] => destruct x; simpl
      end;
      intros Heq; simplify_eq; simpl; split; (lia || by repeat constructor).
  - intros Heq. simplify_eq. split; [simpl; lia|constructor].
Qed.

End FieldExtractor.

(** [**T]: a pointer field of type [*T]. *)
Lemma field_pointer_stripped_once_witness :
  @extractField Demo.platform (mkField ["Next"] (StarExpr (Ident "T")))
    = Some [mkFieldInfo "Next" "T" true] ∧
  @extractField Demo.platform (mkField ["Next"] (StarExpr (StarExpr (Ident "T"))))
    = Some [mkFieldInfo "Next" ("*" +:+ "T") true] ∧
  extractType (StarExpr (Ident "T")) = Some ("*" +:+ "T") ∧
  ((∀ X, Ident "T" ≠ StarExpr X) →
   @extractField Demo.platform (mkField ["Next"] (Ident "T"))
     = Some [mkFieldInfo "Next" "T" false]).
Proof.
  apply (@field_pointer_stripped_once Demo.platform "Next" [] (Ident "T") "T");
    reflexivity.
Defined.

Example field_double_pointer :
  @extractField Demo.platform (mkField ["Next"] (StarExpr (StarExpr (Ident "T"))))
  = Some [mkFieldInfo "Next" "*T" true].
Proof. reflexivity. Qed.

Example field_pointer_in_map :
  @extractField Demo.platform
     (mkField ["Index"] (MapType (Ident "string") (StarExpr (Ident "T"))))
  = Some [mkFieldInfo "Index" "map[string]*T" false].
Proof. reflexivity. Qed.

Example field_two_names :
  @extractField Demo.platform (mkField ["A"; "B"] (StarExpr (Ident "Client")))
  = Some [mkFieldInfo "A" "Client" true].
Proof. reflexivity. Qed.

Example field_unexported_first_name :
  @extractField Demo.platform (mkField ["a"; "B"] (Ident "int")) = Some [].
Proof. reflexivity. Qed.

(** ** Splitting and joining *)

Section SplitJoin.

Lemma app_cons (c : ascii) (s t : string) : String c s +:+ t = String c (s +:+ t).
Proof. reflexivity. Qed.

Lemma length_app (s t : string) :
  String.length (s +:+ t) = (String.length s + String.length t)%nat.
Proof. induction s as [|c s IH]; [done|]. rewrite app_cons. simpl. by rewrite IH. Qed.

Lemma drop_app (s t : string) : strings.drop (String.length s) (s +:+ t) = t.
Proof. induction s as [|c s IH]; [by destruct t|]. by rewrite app_cons. Qed.

Lemma take_app (s t : string) : strings.take (String.length s) (s +:+ t) = s.
Proof.
  induction s as [|c s IH]; [by destruct t|]. rewrite app_cons. simpl. by rewrite IH.
Qed.

Lemma HasPrefix_nil (s : string) : strings.HasPrefix s "" = true.
Proof. by destruct s. Qed.

Lemma HasPrefix_cons (c d : ascii) (s p : string) :
  strings.HasPrefix (String c s) (String d p)
  = if ascii_dec d c then strings.HasPrefix s p else false.
Proof. reflexivity. Qed.

Lemma Contains_cons (c : ascii) (s sub : string) :
  strings.Contains (String c s) sub
  = strings.HasPrefix (String c s) sub || strings.Contains s sub.
Proof. reflexivity. Qed.

(** One step of the scan, outside a separator. *)
Lemma splitFrom_cons (sep : string) (c : ascii) (s : string) :
  strings.splitFrom sep 0 (String c s)
  = if strings.HasPrefix (String c s) sep
    then "" :: strings.splitFrom sep (String.length sep - 1) s
    else match strings.splitFrom sep 0 s with
         | q :: qs => String c q :: qs
         | [] => [String c ""]
         end.
Proof. reflexivity. Qed.

Lemma TrimPrefix_bracket (s : string) : strings.TrimPrefix ("[" +:+ s) "[" = s.
Proof.
  unfold strings.TrimPrefix. rewrite app_cons, HasPrefix_cons. simpl.
  by rewrite HasPrefix_nil.
Qed.

Lemma TrimSuffix_bracket (s : string) : strings.TrimSuffix (s +:+ "]") "]" = s.
Proof.
  unfold strings.TrimSuffix, strings.HasSuffix. rewrite length_app.
  change (String.length "]") with 1%nat.
  replace (String.length s + 1 - 1)%nat with (String.length s) by lia.
  rewrite drop_app, take_app.
  assert ((1 <=? String.length s + 1)%nat = true) as ->
    by (apply Nat.leb_le; lia).
  reflexivity.
Qed.

(** A text without the delimiter is one piece. *)
Lemma splitFrom_comma_one (p : string) :
  strings.Contains p ", " = false → strings.splitFrom ", " 0 p = [p].
Proof.
  induction p as [|c p IH]; [done|]. rewrite Contains_cons, splitFrom_cons.
  intros [Hhead Htail]%orb_false_elim. by rewrite Hhead, (IH Htail).
Qed.

(** A text without the delimiter, followed by the delimiter, is the first
    piece of the split. *)
Lemma splitFrom_comma_cons (p rest : string) :
  strings.Contains p ", " = false →
  strings.splitFrom ", " 0 (p +:+ ", " +:+ rest)
  = p :: strings.splitFrom ", " 0 rest.
Proof.
  induction p as [|c p IH].
  - intros _. change ("" +:+ ", " +:+ rest) with (String "," (String " " rest)).
    rewrite splitFrom_cons, !HasPrefix_cons, HasPrefix_nil. reflexivity.
  - rewrite Contains_cons. intros [Hhead Htail]%orb_false_elim.
    rewrite app_cons, splitFrom_cons, (IH Htail).
    assert (strings.HasPrefix (String c (p +:+ ", " +:+ rest)) ", " = false) as ->;
      [|done].
    rewrite HasPrefix_cons in Hhead |- *.
    destruct (ascii_dec "," c); [|done].
    destruct p as [|d p]; [done|].
    rewrite app_cons. rewrite HasPrefix_cons in Hhead |- *.
    destruct (ascii_dec " " d); [|done].
    by rewrite HasPrefix_nil in Hhead.
Qed.

(** Splitting a joined list gives the list back, when no element holds the
    delimiter and there is an element to begin with. *)
Lemma Split_Join_comma (p : string) (ps : list string) :
  Forall (λ q, strings.Contains q ", " = false) (p :: ps) →
  strings.Split (strings.Join (p :: ps) ", ") ", " = p :: ps.
Proof.
  unfold strings.Split. revert p.
  induction ps as [|q ps IH]; intros p Hall.
  - apply splitFrom_comma_one. by inversion Hall.
  - inversion Hall as [|? ? Hp Hrest]; subst.
    change (strings.Join (p :: q :: ps) ", ")
      with (p +:+ ", " +:+ strings.Join (q :: ps) ", ").
    rewrite (splitFrom_comma_cons _ _ Hp). f_equal. by apply IH.
Qed.

(** The first piece of ["name constraint"] split on spaces is the name. *)
Lemma firstPart_name (name constraint : string) :
  plainName name = true →
  firstPart (strings.Split (name +:+ " " +:+ constraint) " ") = name.
Proof.
  unfold strings.Split. intros Hname.
  enough (∃ rest, strings.splitFrom " " 0 (name +:+ " " +:+ constraint)
                  = name :: rest) as [rest ->] by done.
  induction name as [|c name IH].
  - change ("" +:+ " " +:+ constraint) with (String " " constraint).
    rewrite splitFrom_cons, HasPrefix_cons, HasPrefix_nil. by eexists.
  - simpl in Hname. apply andb_prop in Hname as [Hc Hname].
    apply andb_prop in Hc as [Hsp _].
    destruct (IH Hname) as [rest Hrest].
    rewrite app_cons, splitFrom_cons, Hrest, HasPrefix_cons.
    destruct (ascii_dec " " c) as [<-|]; [done|by eexists].
Qed.

(** ["name constraint"] holds the delimiter only if the constraint does. *)
Lemma Contains_comma_piece (name constraint : string) :
  plainName name = true →
  strings.Contains constraint ", " = false →
  strings.Contains (name +:+ " " +:+ constraint) ", " = false.
Proof.
  intros Hname Hc. induction name as [|c name IH].
  - change ("" +:+ " " +:+ constraint) with (String " " constraint).
    by rewrite Contains_cons, Hc, HasPrefix_cons.
  - simpl in Hname. apply andb_prop in Hname as [Hch Hname].
    apply andb_prop in Hch as [_ Hcomma].
    rewrite app_cons, Contains_cons, (IH Hname), orb_false_r, HasPrefix_cons.
    destruct (ascii_dec "," c) as [<-|]; [done|done].
Qed.

End SplitJoin.

(** ** The generic-parameter renderer *)

Lemma paramTexts_pieces (param : Field) (pieces : list string) :
  paramTexts param = Some pieces →
  Forall (λ name, plainName name = true) (Names param) →
  (∀ c, extractType (Type_ param) = Some c → strings.Contains c ", " = false) →
  Forall2 pieceOf (Names param) pieces.
Proof.
  unfold paramTexts. intros Hmap%mapM_Some Hnames Hc.
  induction Hmap as [|name piece names pieces Hpiece _ IH]; [constructor|].
  inversion Hnames as [|? ? Hname Hrest]; subst.
  constructor; [|by apply IH].
  destruct (extractType (Type_ param)) as [c|] eqn:Hty; [|discriminate].
  simpl in Hpiece. injection Hpiece as <-. exists c. by split_and!; [|apply Hc|].
Qed.

Lemma extractTypeParams_pieces (typeParams : list Field) (decl : string) :
  extractTypeParams typeParams = Some decl →
  Forall (λ name, plainName name = true) (paramNames typeParams) →
  (∀ param c, param ∈ typeParams → extractType (Type_ param) = Some c →
              strings.Contains c ", " = false) →
  ∃ pieces, decl = "[" +:+ strings.Join pieces ", " +:+ "]" ∧
            Forall2 pieceOf (paramNames typeParams) pieces.
Proof.
  unfold extractTypeParams, paramNames. intros Hdecl Hnames Hc.
  destruct (mapM paramTexts typeParams) as [groups|] eqn:Hgroups; [|discriminate].
  injection Hdecl as <-. exists (concat groups). split; [done|].
  apply mapM_Some in Hgroups.
  induction Hgroups as [|param group params groups Hgroup _ IH]; [constructor|].
  simpl in *. apply Forall_app in Hnames as [Hhere Hrest].
  apply Forall2_app.
  - apply paramTexts_pieces; [done..|]. intros c. apply Hc. by left.
  - apply IH; [done|]. intros p c Hin. apply Hc. by right.
Qed.

(** Splitting each piece on spaces and keeping the first part gives the
    names back. *)
Lemma firstPart_pieces (names pieces : list string) :
  Forall2 pieceOf names pieces →
  map (λ param, firstPart (strings.Split param " ")) pieces = names.
Proof.
  induction 1 as [|name piece names pieces (c & -> & _ & Hname) _ IH]; [done|].
  cbn [map]. by rewrite firstPart_name, IH.
Qed.

Lemma pieces_no_delimiter (names pieces : list string) :
  Forall2 pieceOf names pieces →
  Forall (λ q, strings.Contains q ", " = false) pieces.
Proof.
  induction 1 as [|name piece names pieces (c & -> & Hc & Hname) _ IH];
    constructor; [by apply Contains_comma_piece|done].
Qed.

(** C6.  When no rendered constraint holds the delimiter [", "], the
    names-only projection of the declaration form is exactly the bracketed,
    comma-joined list of the parameter names, in declaration order.  (The
    names are identifiers: they hold no space and no comma.) *)
Theorem typeParamNames_of_declaration (typeParams : list Field) (decl : string)
    (Hdecl : extractTypeParams typeParams = Some decl)
    (Hnames : Forall (λ name, plainName name = true) (paramNames typeParams))
    (Hconstraints : ∀ param c, param ∈ typeParams →
                               extractType (Type_ param) = Some c →
                               strings.Contains c ", " = false) :
  extractTypeParamNames decl
  = "[" +:+ strings.Join (paramNames typeParams) ", " +:+ "]".
Proof.
  destruct (extractTypeParams_pieces _ _ Hdecl Hnames Hconstraints)
    as (pieces & -> & Hpieces).
  unfold extractTypeParamNames.
  rewrite TrimPrefix_bracket, TrimSuffix_bracket.
  destruct pieces as [|p ps].
  - inversion Hpieces. reflexivity.
  - rewrite Split_Join_comma by (by eapply pieces_no_delimiter).
    by rewrite (firstPart_pieces _ _ Hpieces).
Qed.

(** [[K comparable, V any]] projects to [[K, V]]. *)
Lemma typeParamNames_of_declaration_witness :
  extractTypeParamNames "[K comparable, V any]"
  = "[" +:+ strings.Join ["K"; "V"] ", " +:+ "]".
Proof.
  apply (typeParamNames_of_declaration
           [mkField ["K"] (Ident "comparable"); mkField ["V"] (Ident "any")]
           "[K comparable, V any]").
  - reflexivity.
  - repeat constructor.
  - intros param c Hin Hc.
    repeat (apply elem_of_cons in Hin as [->|Hin]);
      [injection Hc as <-; reflexivity ..|].
    by apply elem_of_nil in Hin.
Defined.

Example typeParamNames_two : extractTypeParamNames "[K comparable, V any]" = "[K, V]".
Proof. reflexivity. Qed.

Example typeParamNames_shared_constraint :
  extractTypeParamNames
    <$> extractTypeParams [mkField ["K"; "V"] (Ident "comparable")]
  = Some "[K, V]".
Proof. reflexivity. Qed.

(** With a constraint whose rendering holds the delimiter the projection is
    not the list of names. *)
Example typeParamNames_delimiter_in_constraint :
  extractTypeParams Demo.storeParams = Some "[S Store[K, V], K comparable, V any]" ∧
  extractTypeParamNames "[S Store[K, V], K comparable, V any]" = "[S, V], K, V]".
Proof. split; reflexivity. Qed.

(** ** The emitted validator and constructor *)

Section EmittedCode.

Lemma app_assoc_string (s t u : string) : (s +:+ t) +:+ u = s +:+ t +:+ u.
Proof. induction s as [|c s IH]; [done|]. rewrite !app_cons. by rewrite IH. Qed.

(** Both sides are the same text once every concatenation is nested to the
    right. *)
Ltac same_text := rewrite ?app_assoc_string; reflexivity.

(** The loop with the [if] inside emits one statement per pointer field. *)
Lemma checks_of_pointer_fields (fields : list FieldInfo) :
  flat_map (λ f, if IsPointer f then [requiredCheck f] else []) fields
  = map requiredCheck (List.filter IsPointer fields).
Proof.
  induction fields as [|f fields IH]; [done|]. simpl.
  destruct (IsPointer f); simpl; by rewrite IH.
Qed.

(** The text of the third [range], read back as statements. *)
Lemma print_checks (fields : list FieldInfo) (tail : string) :
  foldr (λ st rest, Emitted.printStmt st +:+ rest) tail
        (map requiredCheck (List.filter IsPointer fields))
  = Template.range Template.check fields +:+ tail.
Proof.
  induction fields as [|f fields IH]; [done|].
  unfold Template.range in *. simpl. unfold Template.check at 1.
  destruct (IsPointer f); simpl; rewrite IH; [|done].
  unfold Template.nilCheck. same_text.
Qed.

(** It has one check per pointer field and none for the other fields. *)
Lemma range_check_pointers (fields : list FieldInfo) :
  Template.range Template.check fields
  = Template.range (λ f, Template.nilCheck (Name f)) (List.filter IsPointer fields).
Proof.
  induction fields as [|f fields IH]; [done|].
  unfold Template.range in *. simpl. unfold Template.check at 1.
  destruct (IsPointer f); simpl; by rewrite IH.
Qed.

Lemma print_inits (fields : list FieldInfo) (tail : string) :
  foldr (λ i rest, Emitted.printInit i +:+ rest) tail
        (map (λ f, (Name f, Name f)) fields)
  = Template.range Template.initialiser fields +:+ tail.
Proof.
  induction fields as [|f fields IH]; [done|].
  unfold Template.range in *. simpl. rewrite IH.
  unfold Emitted.printInit, Template.initialiser. simpl. same_text.
Qed.

(** Running the checks appends the failure of every nil pointer field, in
    order, and joins what was appended. *)
Lemma exec_checks funcs (params : Emitted.aggregate) (pointers : list FieldInfo)
    (errs : list Emitted.error) :
  Emitted.exec funcs params errs (map requiredCheck pointers ++ [Emitted.ReturnJoin])
  = Some (Emitted.RetError (Emitted.errors_Join
      (errs ++ map (λ f, Emitted.errors_New (Name f +:+ " is required"))
                   (List.filter (λ f, Emitted.isNil (params (Name f))) pointers)))).
Proof.
  revert errs. induction pointers as [|f pointers IH]; intros errs; simpl.
  - by rewrite app_nil_r.
  - rewrite IH. destruct (Emitted.isNil (params (Name f))); simpl; [|done].
    by rewrite <- app_assoc.
Qed.

(** C2.  The emitted validator holds exactly one nil check per field record
    with [IsPointer = true] and none for the other fields; every check is
    run, whatever the earlier ones found; each violated field appends one
    failure that names it as required; and the failures are joined, so that
    without a violation the validator returns nil. *)
Theorem validator_checks_pointer_fields (s : StructInfo) :
  let pointers := List.filter IsPointer (Fields s) in
  let required := λ f, Name f +:+ " is required" in
  Template.validator s
    = LF +:+ "// isValid" +:+ SName s +:+ "Params validates the " +:+ SName s
         +:+ "Params" +:+ LF +:+ Emitted.print (validatorFunc s) +:+ LF ∧
  Template.range Template.check (Fields s)
    = Template.range (λ f, Template.nilCheck (Name f)) pointers ∧
  Emitted.body (validatorFunc s)
    = Emitted.DeclErrs
        :: map (λ f, Emitted.IfNilAppend (Name f) (required f)) pointers
        ++ [Emitted.ReturnJoin] ∧
  ∀ funcs params,
    let violated := List.filter (λ f, Emitted.isNil (params (Name f))) pointers in
    Emitted.call funcs (validatorFunc s) params
      = Some (Emitted.RetError
                (Emitted.errors_Join
                   (map (λ f, Emitted.errors_New (required f)) violated))) ∧
    (violated = [] →
     Emitted.call funcs (validatorFunc s) params = Some (Emitted.RetError None)).
Proof.
  cbv zeta. split_and!.
  - unfold Template.validator, Emitted.print, validatorFunc. simpl.
    rewrite checks_of_pointer_fields, foldr_app, print_checks. simpl.
    same_text.
  - apply range_check_pointers.
  - unfold validatorFunc. simpl. by rewrite checks_of_pointer_fields.
  - intros funcs params.
    assert (Emitted.call funcs (validatorFunc s) params
            = Some (Emitted.RetError (Emitted.errors_Join
                (map (λ f, Emitted.errors_New (Name f +:+ " is required"))
                   (List.filter (λ f, Emitted.isNil (params (Name f)))
                      (List.filter IsPointer (Fields s))))))) as Hcall.
    { unfold Emitted.call, validatorFunc. simpl.
      by rewrite checks_of_pointer_fields, exec_checks. }
    split; [exact Hcall|]. intros Hnone. by rewrite Hcall, Hnone.
Qed.

(** C8.  The emitted constructor takes one aggregate value, of the type the
    validator takes, and calls the validator on it.  When the validator
    returns nil, it returns an instance of the original type whose fields
    are the field records, in order, each copied from the member of the same
    name, and a nil error; when the validator returns a failure, it returns
    no instance and that failure. *)
Theorem constructor_validates_then_copies (s : StructInfo)
    (funcs : string → option (Emitted.aggregate → option Emitted.error))
    (validate : Emitted.aggregate → option Emitted.error)
    (params : Emitted.aggregate)
    (Hvalidator : funcs (Emitted.fname (validatorFunc s)) = Some validate) :
  Template.constructor s
    = LF +:+ "// New" +:+ SName s +:+ " creates a new " +:+ SName s
         +:+ LF +:+ Emitted.print (constructorFunc s) +:+ LF ∧
  Emitted.ptype (constructorFunc s) = Emitted.ptype (validatorFunc s) ∧
  Emitted.call funcs (constructorFunc s) params
    = Some match validate params with
           | Some err => Emitted.RetNew None (Some err)
           | None =>
               Emitted.RetNew
                 (Some (SName s +:+ Template.useForm s,
                        map (λ f, (Name f, params (Name f))) (Fields s)))
                 None
           end.
Proof.
  split_and!.
  - unfold Template.constructor, Emitted.print, constructorFunc. simpl.
    rewrite print_inits. same_text.
  - reflexivity.
  - unfold Emitted.call, constructorFunc. simpl. simpl in Hvalidator.
    rewrite Hvalidator. destruct (validate params); [done|].
    by rewrite map_map.
Qed.

End EmittedCode.

(** The constructor of [Service], linked with its validator, on an aggregate
    whose [Client] is nil. *)
Lemma constructor_validates_then_copies_witness :
  Template.constructor Demo.serviceInfo
    = LF +:+ "// New" +:+ "Service" +:+ " creates a new " +:+ "Service"
         +:+ LF +:+ Emitted.print (constructorFunc Demo.serviceInfo) +:+ LF ∧
  Emitted.ptype (constructorFunc Demo.serviceInfo)
    = Emitted.ptype (validatorFunc Demo.serviceInfo) ∧
  Emitted.call (linked Demo.serviceInfo) (constructorFunc Demo.serviceInfo)
               Demo.serviceParams
    = Some (Emitted.RetNew None
              (Some (Emitted.joinError [Emitted.errorString "Client is required"]))).
Proof.
  apply (constructor_validates_then_copies Demo.serviceInfo
           (linked Demo.serviceInfo) (runValidator Demo.serviceInfo)
           Demo.serviceParams).
  reflexivity.
Defined.

Example service_validator_text :
  Template.validator Demo.serviceInfo
  = LF +:+ "// isValidServiceParams validates the ServiceParams"
       +:+ LF +:+ "func isValidServiceParams(params ServiceParams) error {"
       +:+ LF +:+ TAB +:+ "var errs []error"
       +:+ LF +:+ TAB +:+ "if params.Client == nil {"
       +:+ LF +:+ TAB +:+ TAB +:+ "errs = append(errs, errors.New("
       +:+ QUOTE +:+ "Client is required" +:+ QUOTE +:+ "))"
       +:+ LF +:+ TAB +:+ "}"
       +:+ LF +:+ TAB +:+ "return errors.Join(errs...)"
       +:+ LF +:+ "}" +:+ LF.
Proof. reflexivity. Qed.

Example service_constructor_copies :
  Emitted.call (linked Demo.serviceInfo) (constructorFunc Demo.serviceInfo)
               (λ _, Emitted.Val 7)
  = Some (Emitted.RetNew
            (Some ("Service", [("Client", Emitted.Val 7); ("Timeout", Emitted.Val 7)]))
            None).
Proof. reflexivity. Qed.

Example service_validator_all_checked :
  runValidator
    (mkStructInfo "S" [mkFieldInfo "A" "T" true; mkFieldInfo "B" "int" false;
                       mkFieldInfo "C" "U" true] "p" "" false)
    (λ _, Emitted.Nil)
  = Some (Emitted.joinError [Emitted.errorString "A is required";
                             Emitted.errorString "C is required"]).
Proof. reflexivity. Qed.

(** ** The struct extractor *)

Section StructExtractor.
Context `{Platform}.

Lemma extractField_names (field : Field) (infos : list FieldInfo) :
  extractField field = Some infos →
  map Name infos = List.filter IsExported (take 1 (Names field)).
Proof.
  unfold extractField. destruct (Names field) as [|first rest]; simpl.
  - by intros [= <-].
  - destruct (IsExported first); simpl; [|by intros [= <-]].
    destruct (Type_ field); simpl;
      repeat match goal with
      | |- context [extractType ?e] => destruct (extractType e); simpl
      | |- context [mapM ?f ?l] => destruct (mapM f l); simpl
      | |- context [match ?x with Ident _ => _ | _ => _ end] => destruct x; simpl
      | |- context [match ?x with Some _ => _ | None => _ end] => destruct x; simpl
      end; by intros [= <-].
Qed.

(** The records are named after the first names of the declarations whose
    first name is exported, in declaration order. *)
Lemma extractFields_names (fields : list Field) (infos : list FieldInfo) :
  extractFields fields = Some infos →
  map Name infos
  = List.filter IsExported (flat_map (λ field, take 1 (Names field)) fields).
Proof.
  unfold extractFields.
  destruct (mapM extractField fields) as [groups|] eqn:Hgroups; [|discriminate].
  simpl. intros [= <-]. apply mapM_Some in Hgroups.
  induction Hgroups as [|field group fields groups Hgroup _ IH]; [done|].
  simpl. rewrite map_app, List.filter_app, IH.
  by rewrite (extractField_names _ _ Hgroup).
Qed.

(** No record is named after an unexported name, and an embedded field, which
    has no name, gives no record. *)
Lemma extractFields_exported (fields : list Field) (infos : list FieldInfo) :
  extractFields fields = Some infos →
  Forall (λ f, IsExported (Name f) = true) infos.
Proof.
  intros Hnames%extractFields_names. apply Forall_forall. intros f Hin.
  assert (In (Name f) (map Name infos)) as Hname
    by (apply in_map, list_elem_of_In, Hin).
  rewrite Hnames in Hname. by apply filter_In in Hname as [_ ?].
Qed.

(** When every declaration of the struct lists one name at most, the records
    are the exported, non-embedded fields of the struct, one each and in
    declaration order. *)
Lemma extractFields_single_names (fields : list Field) (infos : list FieldInfo) :
  Forall (λ field, (length (Names field) ≤ 1)%nat) fields →
  extractFields fields = Some infos →
  map Name infos = exportedNames fields ∧
  length infos = length (exportedNames fields).
Proof.
  intros Hsingle Hinfos.
  assert (map Name infos = exportedNames fields) as Heq.
  { rewrite (extractFields_names _ _ Hinfos). unfold exportedNames. f_equal.
    clear Hinfos.
    induction Hsingle as [|field fields Hone _ IH]; [done|]. simpl. rewrite IH.
    f_equal. destruct (Names field) as [|? [|]]; simpl in *; [done..|lia]. }
  split; [done|]. by rewrite <- Heq, length_map.
Qed.

(** The aggregate has one member per record, in the order of the records. *)
Lemma aggregate_members (s : StructInfo) :
  Template.aggregate s
  = LF +:+ "// " +:+ SName s +:+ "Params is the parameter struct for creating a "
       +:+ SName s
       +:+ LF +:+ "type " +:+ SName s +:+ "Params" +:+ Template.declForm s
       +:+ " struct {"
       +:+ foldr (λ f rest, Template.member f +:+ rest) (LF +:+ "}" +:+ LF) (Fields s).
Proof.
  unfold Template.aggregate, Template.range. do 11 f_equal.
  induction (Fields s) as [|f fields IH]; [done|]. simpl. rewrite <- IH.
  by rewrite app_assoc_string.
Qed.

Lemma extractSpec_not_eligible (packageName : string) (doc : option (list string))
    (spec : Spec) :
  isEligible doc spec = false → extractSpec packageName doc spec = Some [].
Proof.
  destruct spec as [name tparams ty| |]; simpl; try done.
  destruct ty; try done. by intros ->.
Qed.

Lemma extractDecl_not_eligible (packageName : string) (decl : Decl) :
  match decl with
  | GenDecl doc TYPE specs => List.filter (isEligible doc) specs
  | _ => []
  end = [] →
  extractDecl packageName decl = Some [].
Proof.
  destruct decl as [doc [] specs| |]; simpl; try done.
  induction specs as [|spec specs IH]; [done|]. simpl.
  destruct (isEligible doc spec) eqn:Hspec; [done|]. intros Hrest.
  rewrite (extractSpec_not_eligible _ _ _ Hspec). simpl.
  specialize (IH Hrest).
  destruct (mapM (extractSpec packageName doc) specs) as [found|]; simpl in *;
    [|done].
  by injection IH as ->.
Qed.

(** A file without an eligible declaration yields no struct record. *)
Lemma extractStructs_not_eligible (node : File) :
  eligibleSpecs node = [] → extractStructs node = Some [].
Proof.
  unfold eligibleSpecs, extractStructs.
  induction (Decls node) as [|decl decls IH]; [done|]. simpl.
  intros [Hdecl Hrest]%app_eq_nil.
  rewrite (extractDecl_not_eligible _ _ Hdecl). simpl.
  specialize (IH Hrest).
  destruct (mapM (extractDecl (FileName node)) decls) as [found|]; simpl in *;
    [|done].
  by injection IH as ->.
Qed.

End StructExtractor.

(** C3, where the code departs from it.  [type Pair struct { A, B *Client }]
    has two exported, non-embedded fields, [A] and [B]; the extractor records
    [A] alone, and the emitted aggregate has the one member [A *Client]. *)
Theorem pair_aggregate_misses_second_field :
  @exportedNames Demo.platform [mkField ["A"; "B"] (StarExpr (Ident "Client"))]
    = ["A"; "B"] ∧
  @extractStructs Demo.platform Demo.pairFile
    = Some [mkStructInfo "Pair" [mkFieldInfo "A" "Client" true] "demo" "" false] ∧
  Template.aggregate
    (mkStructInfo "Pair" [mkFieldInfo "A" "Client" true] "demo" "" false)
    = LF +:+ "// PairParams is the parameter struct for creating a Pair"
         +:+ LF +:+ "type PairParams struct {"
         +:+ LF +:+ TAB +:+ "A *Client"
         +:+ LF +:+ "}" +:+ LF.
Proof. split_and!; reflexivity. Qed.

Example service_fields_extracted :
  @extractFields Demo.platform Demo.serviceFields
  = Some [mkFieldInfo "Client" "Client" true; mkFieldInfo "Timeout" "int" false].
Proof. reflexivity. Qed.

Example service_aggregate_text :
  Template.aggregate Demo.serviceInfo
  = LF +:+ "// ServiceParams is the parameter struct for creating a Service"
       +:+ LF +:+ "type ServiceParams struct {"
       +:+ LF +:+ TAB +:+ "Client *Client"
       +:+ LF +:+ TAB +:+ "Timeout int"
       +:+ LF +:+ "}" +:+ LF.
Proof. reflexivity. Qed.

(** ** The pipeline *)

Section PipelineProperties.
Context `{Platform}.

(** A run that returns nil has written the destination: the file system
    afterwards is the one before with the formatted code at [OutputFile],
    whether or not a file was there. *)
Lemma Generate_success_writes (g g' : Generator) (fs fs' : FS) :
  Generate g fs = (Returned None, g', fs') →
  ∃ node structs formattedCode,
    ParseFile fs (InputFile g) = inr node ∧
    extractStructs node = Some structs ∧
    format_Source (generateCode (FileName node) structs) = inr formattedCode ∧
    fs' = <[OutputFile g := formattedCode]> fs.
Proof.
  unfold Generate, os_WriteFile.
  destruct (ParseFile fs (InputFile g)) as [err|node] eqn:Hparse; [by intros [=]|].
  destruct (extractStructs node) as [structs|] eqn:Hstructs; [|by intros [=]].
  destruct (length structs =? 0)%nat; [by intros [=]|]. simpl.
  destruct (format_Source _) as [err|code] eqn:Hformat; [by intros [=]|].
  destruct (os_WriteFile_error _); intros [=]; subst. by exists node, structs, code.
Qed.

(** A run that does not return nil leaves the file system as it was. *)
Lemma Generate_failure_frame (g g' : Generator) (fs fs' : FS) (out : Outcome) :
  Generate g fs = (out, g', fs') → out ≠ Returned None → fs' = fs.
Proof.
  unfold Generate, os_WriteFile.
  destruct (ParseFile fs (InputFile g)) as [err|node]; [by intros [=]|].
  destruct (extractStructs node) as [structs|]; [|by intros [=]].
  destruct (length structs =? 0)%nat; [by intros [=]|]. simpl.
  destruct (format_Source _) as [err|code]; [by intros [=]|].
  destruct (os_WriteFile_error _); intros [=] Hout; subst; [done|].
  by destruct Hout.
Qed.

(** C4.  On an input file that parses and holds no eligible declaration,
    [Generate] returns the error "no structs with go:generate directive
    found", and the file system is left as it was: no output file is created
    or modified. *)
Theorem no_eligible_struct_NoMatchError (g : Generator) (fs : FS) (node : File)
    (Hparsed : ParseFile fs (InputFile g) = inr node)
    (Hnone : eligibleSpecs node = []) :
  Generate g fs
  = (Returned (Some NoMatchError),
     mkGenerator (InputFile g) (OutputFile g) (FileName node),
     fs).
Proof.
  unfold Generate. by rewrite Hparsed, (extractStructs_not_eligible _ Hnone).
Qed.

End PipelineProperties.

(** The input of [TestNoStructs]. *)
Lemma no_eligible_struct_NoMatchError_witness :
  @Generate Demo.platform (mkGenerator "test.go" "test_gen.go" "") Demo.plainDisk
  = (Returned (Some NoMatchError),
     mkGenerator "test.go" "test_gen.go" "test",
     Demo.plainDisk).
Proof.
  apply (@no_eligible_struct_NoMatchError Demo.platform
           (mkGenerator "test.go" "test_gen.go" "") Demo.plainDisk Demo.plainFile);
    reflexivity.
Defined.

Example main_no_eligible_struct :
  @main Demo.platform "test.go" [] Demo.plainDisk
  = (Exited 1 ("Error: no structs with go:generate directive found" +:+ LF),
     Demo.plainDisk).
Proof. reflexivity. Qed.

(** C1, where the code departs from it.  The output file of an earlier run
    exists and no force flag is given: the run reports success and the file
    holds the newly generated code, not its former bytes.  A [-force] flag is
    not defined: with it the command line is rejected and nothing is
    written. *)
Theorem existing_output_overwritten :
  Demo.disk !! "pkg/pair_gen.go" = Some "package demo // edited by hand" ∧
  (@main Demo.platform "" [Flag "input" (Some "pkg/pair.go")] Demo.disk).1
    = Exited 0 ("Successfully generated pkg/pair_gen.go from pkg/pair.go" +:+ LF) ∧
  (@main Demo.platform "" [Flag "input" (Some "pkg/pair.go")] Demo.disk).2
    !! "pkg/pair_gen.go"
    = Some (generateCode "demo"
              [mkStructInfo "Pair" [mkFieldInfo "A" "Client" true] "demo" "" false]) ∧
  @main Demo.platform ""
        [Flag "input" (Some "pkg/pair.go"); Flag "force" None] Demo.disk
    = (FlagError 2 "flag provided but not defined: -force", Demo.disk).
Proof. split_and!; vm_compute; reflexivity. Qed.

(** * Further properties *)

(** ** Substrings *)

Section Substrings.

Lemma HasPrefix_app (p s : string) : strings.HasPrefix (p +:+ s) p = true.
Proof.
  induction p as [|c p IH]; [apply HasPrefix_nil|].
  rewrite app_cons, HasPrefix_cons. by destruct (ascii_dec c c).
Qed.

Lemma HasPrefix_inv (s p : string) :
  strings.HasPrefix s p = true → ∃ post, s = p +:+ post.
Proof.
  revert s. induction p as [|c p IH]; intros s; [by exists s|].
  destruct s as [|d s]; [done|]. rewrite HasPrefix_cons.
  destruct (ascii_dec c d) as [->|]; [|done].
  intros [post ->]%IH. by exists post.
Qed.

Lemma Contains_unfold (s sub : string) :
  strings.Contains s sub
  = strings.HasPrefix s sub
    || match s with "" => false | String _ s' => strings.Contains s' sub end.
Proof. by destruct s. Qed.

Lemma Contains_app (pre sub post : string) :
  strings.Contains (pre +:+ sub +:+ post) sub = true.
Proof.
  induction pre as [|c pre IH].
  - change ("" +:+ sub +:+ post) with (sub +:+ post).
    by rewrite Contains_unfold, HasPrefix_app.
  - by rewrite app_cons, Contains_cons, IH, orb_true_r.
Qed.

Lemma Contains_inv (s sub : string) :
  strings.Contains s sub = true → ∃ pre post, s = pre +:+ sub +:+ post.
Proof.
  induction s as [|c s IH]; rewrite Contains_unfold.
  - rewrite orb_false_r. intros [post ->]%HasPrefix_inv. by exists "", post.
  - intros [Hhere|Hlater]%orb_prop.
    + apply HasPrefix_inv in Hhere as [post ->]. by exists "", post.
    + destruct (IH Hlater) as (pre & post & ->). by exists (String c pre), post.
Qed.

End Substrings.

(** ** The marker detector *)

(** X1.  A declaration is marked exactly when one comment of its doc
    comment holds the directive text somewhere, whatever stands before and
    after it in the comment; a declaration without doc comment is not
    marked. *)
Theorem marked_iff_directive_in_comment (doc : option (list string)) :
  hasGenerateDirective doc = true ↔
  ∃ comments text pre post,
    doc = Some comments ∧ In text comments ∧ text = pre +:+ directive +:+ post.
Proof.
  split.
  - destruct doc as [comments|]; [|done]. simpl.
    intros (text & Hin & (pre & post & ->)%Contains_inv)%existsb_exists.
    by exists comments, (pre +:+ directive +:+ post), pre, post.
  - intros (comments & text & pre & post & -> & Hin & ->). simpl.
    apply existsb_exists. eexists. split; [exact Hin|]. apply Contains_app.
Qed.

(** ** The struct extractor, over a whole file *)

Section FileExtractor.
Context `{Platform}.

(** What one type specification adds: nothing when it is not eligible, and
    otherwise one record, generic exactly when a non-empty parameter list
    was rendered. *)
Lemma extractSpec_inv (packageName : string) (doc : option (list string))
    (spec : Spec) (found : list StructInfo) :
  extractSpec packageName doc spec = Some found →
  (isEligible doc spec = false ∧ found = []) ∨
  (isEligible doc spec = true ∧
   ∃ name tparams fields infos typeParams isGeneric,
     spec = TypeSpec name tparams (StructType fields) ∧
     extractFields fields = Some infos ∧
     found = [mkStructInfo name infos packageName typeParams isGeneric] ∧
     ((isGeneric = false ∧ typeParams = "") ∨
      (isGeneric = true ∧ ∃ params, tparams = Some params ∧
                                    extractTypeParams params = Some typeParams))).
Proof.
  destruct spec as [name tparams ty| |]; simpl; try (intros [= <-]; by left).
  destruct ty; try (intros [= <-]; by left).
  destruct (hasGenerateDirective doc); simpl; [|intros [= <-]; by left].
  intros Hfound. right. split; [done|].
  destruct tparams as [[|p ps]|]; simpl in Hfound.
  - destruct (extractFields Fields0) as [infos|] eqn:Hinfos; simplify_eq/=.
    eexists _, _, _, _, _, _. split_and!; [done..|by left].
  - destruct (extractTypeParams (p :: ps)) as [tp|] eqn:Htp; simplify_eq/=.
    destruct (extractFields Fields0) as [infos|] eqn:Hinfos; simplify_eq/=.
    eexists _, _, _, _, _, _. split_and!; [done..|]. right. split; [done|].
    by exists (p :: ps).
  - destruct (extractFields Fields0) as [infos|] eqn:Hinfos; simplify_eq/=.
    eexists _, _, _, _, _, _. split_and!; [done..|by left].
Qed.

(** What holds of every record one specification can add holds of every
    record of the file. *)
Lemma extractStructs_Forall (P : StructInfo → Prop) (node : File)
    (structs : list StructInfo) :
  (∀ doc spec found,
     extractSpec (FileName node) doc spec = Some found → Forall P found) →
  extractStructs node = Some structs →
  Forall P structs.
Proof.
  intros Hspec. unfold extractStructs.
  destruct (mapM _ (Decls node)) as [groups|] eqn:Hgroups; [|done].
  simpl. intros [= <-]. apply mapM_Some in Hgroups.
  apply Forall_concat.
  induction Hgroups as [|decl group decls groups Hdecl _ IH]; constructor; [|done].
  destruct decl as [doc [] specs| |]; simpl in Hdecl; simplify_eq; try by constructor.
  destruct (mapM _ specs) as [found|] eqn:Hfound; [|done].
  simpl in Hdecl. injection Hdecl as <-. apply mapM_Some in Hfound.
  apply Forall_concat.
  induction Hfound as [|spec f specs fs Hone _ IHs]; constructor; [|done].
  by eapply Hspec.
Qed.

Lemma extractDecl_names (packageName : string) (decl : Decl)
    (found : list StructInfo) :
  extractDecl packageName decl = Some found →
  map SName found
  = map specName match decl with
                 | GenDecl doc TYPE specs => List.filter (isEligible doc) specs
                 | _ => []
                 end.
Proof.
  destruct decl as [doc [] specs| |]; simpl; try by intros [= <-].
  destruct (mapM _ specs) as [groups|] eqn:Hgroups; [|done].
  simpl. intros [= <-]. apply mapM_Some in Hgroups.
  induction Hgroups as [|spec group specs groups Hspec _ IH]; [done|].
  simpl. rewrite map_app, IH.
  destruct (extractSpec_inv _ _ _ _ Hspec)
    as [[-> ->]|[-> (name & tp & fields & infos & t & g & -> & _ & -> & _)]];
    done.
Qed.

(** X2.  When the extraction returns, it holds one record per eligible type
    specification of the file, under the declared name and in the order of
    the declarations, and every record carries the package name of the
    file. *)
Theorem structs_follow_eligible_specs (node : File) (structs : list StructInfo)
    (Hstructs : extractStructs node = Some structs) :
  map SName structs = map specName (eligibleSpecs node) ∧
  length structs = length (eligibleSpecs node) ∧
  Forall (λ s, SPackageName s = FileName node) structs.
Proof.
  assert (map SName structs = map specName (eligibleSpecs node)) as Hnames.
  { revert Hstructs. unfold extractStructs, eligibleSpecs.
    destruct (mapM _ (Decls node)) as [groups|] eqn:Hgroups; [|done].
    simpl. intros [= <-]. apply mapM_Some in Hgroups.
    induction Hgroups as [|decl group decls groups Hdecl _ IH]; [done|].
    simpl. by rewrite !map_app, IH, (extractDecl_names _ _ _ Hdecl). }
  split_and!; [done| |].
  - by rewrite <- (length_map SName), Hnames, length_map.
  - apply (extractStructs_Forall _ node structs); [|done].
    intros doc spec found
      [[_ ->]|[_ (name & tp & fields & infos & t & g & _ & _ & -> & _)]]%extractSpec_inv;
      by repeat constructor.
Qed.

Lemma extractTypeParams_bracket (typeParams : list Field) (decl : string) :
  extractTypeParams typeParams = Some decl → ∃ rest, decl = String "[" rest.
Proof.
  unfold extractTypeParams. destruct (mapM _ _); [|done].
  simpl. intros [= <-]. by eexists.
Qed.

(** X3.  Of every extracted record: it is generic exactly when its
    declaration form is not the empty string, and the declaration form of a
    generic record opens with a bracket. *)
Theorem generic_iff_type_params (node : File) (structs : list StructInfo)
    (Hstructs : extractStructs node = Some structs) :
  Forall (λ s, IsGeneric s = negb (String.eqb (TypeParams s) "") ∧
               (IsGeneric s = true → strings.HasPrefix (TypeParams s) "[" = true))
         structs.
Proof.
  apply (extractStructs_Forall _ node structs); [|done].
  intros doc spec found
    [[_ ->]|[_ (name & tp & fields & infos & t & g & _ & _ & -> & Hgen)]]%extractSpec_inv;
    [constructor|].
  constructor; [|constructor]. simpl.
  destruct Hgen as [[-> ->]|[-> (params & _ & [rest ->]%extractTypeParams_bracket)]].
  - done.
  - split; [done|]. intros _. by rewrite HasPrefix_cons, HasPrefix_nil.
Qed.

End FileExtractor.

Lemma structs_follow_eligible_specs_witness :
  map SName [Demo.serviceInfo] = map specName (eligibleSpecs Demo.serviceFile) ∧
  length [Demo.serviceInfo] = length (eligibleSpecs Demo.serviceFile) ∧
  Forall (λ s, SPackageName s = FileName Demo.serviceFile) [Demo.serviceInfo].
Proof.
  apply (@structs_follow_eligible_specs Demo.platform Demo.serviceFile
           [Demo.serviceInfo]).
  reflexivity.
Defined.

Lemma generic_iff_type_params_witness :
  Forall (λ s, IsGeneric s = negb (String.eqb (TypeParams s) "") ∧
               (IsGeneric s = true → strings.HasPrefix (TypeParams s) "[" = true))
         [cacheInfo].
Proof.
  apply (@generic_iff_type_params Demo.platform cacheFile [cacheInfo]).
  reflexivity.
Defined.

Example cache_use_form : Template.useForm cacheInfo = "[K, V]".
Proof. reflexivity. Qed.

(** ** No panic on type expressions *)

Section NoPanic.
Context `{Platform}.

Lemma extractField_is_Some (field : Field) :
  isTypeExpr (Type_ field) = true → is_Some (extractField field).
Proof.
  unfold extractField. intros Hty.
  destruct (Names field) as [|first rest]; [by eexists|].
  destruct (IsExported first); simpl; [|by eexists].
  destruct (extractType_is_Some _ Hty) as [t Ht].
  destruct (Type_ field) as [n|X sel|X|len elt|k v| |X i|X args|v|fields|k];
    try (simpl in Ht; first [rewrite Ht|idtac]; by eexists).
  simpl in Hty. destruct (extractType_is_Some X Hty) as [tx ->]. by eexists.
Qed.

Lemma extractFields_is_Some (fields : list Field) :
  forallb (λ field, isTypeExpr (Type_ field)) fields = true →
  is_Some (extractFields fields).
Proof.
  intros Hall. unfold extractFields.
  destruct (mapM_is_Some_2 extractField fields) as [groups ->]; [|by eexists].
  apply Forall_forall. intros field Hin%list_elem_of_In.
  apply extractField_is_Some.
  by apply (proj1 (forallb_forall _ _) Hall).
Qed.

Lemma paramTexts_is_Some (param : Field) :
  isTypeExpr (Type_ param) = true → is_Some (paramTexts param).
Proof.
  intros [c Hc]%extractType_is_Some. unfold paramTexts.
  apply mapM_is_Some_2, Forall_forall. intros name _. simpl. rewrite Hc.
  by eexists.
Qed.

Lemma extractTypeParams_is_Some (typeParams : list Field) :
  forallb (λ param, isTypeExpr (Type_ param)) typeParams = true →
  is_Some (extractTypeParams typeParams).
Proof.
  intros Hall. unfold extractTypeParams.
  destruct (mapM_is_Some_2 paramTexts typeParams) as [groups ->]; [|by eexists].
  apply Forall_forall. intros param Hin%list_elem_of_In.
  apply paramTexts_is_Some.
  by apply (proj1 (forallb_forall _ _) Hall).
Qed.

Lemma extractSpec_is_Some (packageName : string) (doc : option (list string))
    (spec : Spec) :
  typedSpec spec = true → is_Some (extractSpec packageName doc spec).
Proof.
  destruct spec as [name tparams ty| |]; simpl; try by eexists.
  destruct ty; try by eexists.
  intros [Hparams Hfields]%andb_prop.
  destruct (hasGenerateDirective doc); simpl; [|by eexists].
  destruct (extractFields_is_Some _ Hfields) as [infos Hinfos].
  destruct tparams as [[|p ps]|]; simpl in *.
  - rewrite Hinfos. by eexists.
  - destruct (extractTypeParams_is_Some (p :: ps) Hparams) as [tp ->]. simpl.
    rewrite Hinfos. by eexists.
  - rewrite Hinfos. by eexists.
Qed.

Lemma extractDecl_is_Some (packageName : string) (decl : Decl) :
  match decl with
  | GenDecl _ _ specs => forallb typedSpec specs
  | _ => true
  end = true →
  is_Some (extractDecl packageName decl).
Proof.
  destruct decl as [doc tok specs| |]; simpl; try by eexists.
  intros Hall. destruct tok; try by eexists.
  destruct (mapM_is_Some_2 (extractSpec packageName doc) specs) as [found ->];
    [|by eexists].
  apply Forall_forall. intros spec Hin%list_elem_of_In.
  apply extractSpec_is_Some. by apply (proj1 (forallb_forall _ _) Hall).
Qed.

(** X4.  On a file in which every field type and every type-parameter
    constraint of a struct is a type expression, the extraction does not
    panic, and so [Generate] returns: with an error or with nil, never by a
    crash. *)
Theorem typed_file_never_panics (g : Generator) (fs : FS) (node : File)
    (Hparsed : ParseFile fs (InputFile g) = inr node)
    (Htyped : typedFile node = true) :
  is_Some (extractStructs node) ∧
  ∃ err g' fs', Generate g fs = (Returned err, g', fs').
Proof.
  assert (is_Some (extractStructs node)) as [structs Hstructs].
  { unfold extractStructs.
    destruct (mapM_is_Some_2 (extractDecl (FileName node)) (Decls node))
      as [found ->]; [|by eexists].
    apply Forall_forall. intros decl Hin%list_elem_of_In.
    apply extractDecl_is_Some.
    by apply (proj1 (forallb_forall _ _) Htyped). }
  split; [by eexists|].
  unfold Generate. rewrite Hparsed, Hstructs.
  destruct (length structs =? 0)%nat; [by eexists _, _, _|]. simpl.
  destruct (format_Source _); [by eexists _, _, _|].
  unfold os_WriteFile. destruct (os_WriteFile_error _); by eexists _, _, _.
Qed.

End NoPanic.

Lemma typed_file_never_panics_witness :
  is_Some (@extractStructs Demo.platform Demo.pairFile) ∧
  ∃ err g' fs',
    @Generate Demo.platform (mkGenerator "pkg/pair.go" "pkg/pair_gen.go" "") Demo.disk
    = (Returned err, g', fs').
Proof.
  apply (@typed_file_never_panics Demo.platform
           (mkGenerator "pkg/pair.go" "pkg/pair_gen.go" "") Demo.disk Demo.pairFile);
    reflexivity.
Defined.

(** And a panic there is: a marked struct whose type-parameter constraint
    selects from a selector. *)
Example generate_panics :
  @extractStructs Demo.platform
     (mkFile "p"
        [GenDecl (Some ["//go:generate gen"]) TYPE
           [TypeSpec "S"
              (Some [mkField ["P"]
                       (StarExpr (SelectorExpr (SelectorExpr (Ident "a") "b") "c"))])
              (StructType [])]])
  = None.
Proof. reflexivity. Qed.

(** ** The generic-parameter renderer, further *)

Section ParamGroups.

Local Abbreviation texts := paramPieces.

Lemma texts_cons (param : Field) (params : list Field) :
  texts (param :: params)
  = (a ← paramTexts param; b ← texts params; Some (a ++ b)%list).
Proof.
  unfold paramPieces. simpl. destruct (paramTexts param) as [a|]; [|done]. simpl.
  by destruct (mapM paramTexts params).
Qed.

Lemma texts_app (params1 params2 : list Field) :
  texts (params1 ++ params2)
  = (a ← texts params1; b ← texts params2; Some (a ++ b)%list).
Proof.
  induction params1 as [|param params1 IH].
  - simpl. by destruct (texts params2).
  - change ((param :: params1) ++ params2)%list
      with (param :: (params1 ++ params2)%list).
    rewrite !texts_cons, IH.
    destruct (paramTexts param) as [a|]; [|done]. simpl.
    destruct (texts params1) as [g1|]; [|done]. simpl.
    destruct (texts params2) as [g2|]; [|done]. simpl.
    by rewrite app_assoc.
Qed.

(** A group cut into single names renders what the group renders. *)
Lemma texts_single_names (names : list string) (ty : Expr) :
  texts (map (λ name, mkField [name] ty) names) = paramTexts (mkField names ty).
Proof.
  induction names as [|name names IH]; [done|].
  change (map (λ name, mkField [name] ty) (name :: names))
    with (mkField [name] ty :: map (λ name, mkField [name] ty) names).
  rewrite texts_cons, IH. unfold paramTexts. simpl.
  destruct (extractType ty) as [c|]; [|done]. simpl.
  by destruct (mapM _ names).
Qed.

(** X5.  A parameter group with several names, as in [[K, V comparable]],
    is rendered as if each name had been declared on its own with the
    constraint of the group. *)
Theorem type_param_groups_flatten (typeParams : list Field) :
  extractTypeParams (ungroup typeParams) = extractTypeParams typeParams.
Proof.
  enough (texts (ungroup typeParams) = texts typeParams) as Htexts.
  { unfold extractTypeParams. unfold paramPieces in Htexts.
    destruct (mapM paramTexts (ungroup typeParams)) as [g1|],
             (mapM paramTexts typeParams) as [g2|]; simpl in *; congruence. }
  induction typeParams as [|[names ty] params IH]; [done|].
  change (ungroup (mkField names ty :: params))
    with (map (λ name, mkField [name] ty) names ++ ungroup params)%list.
  by rewrite texts_app, texts_cons, texts_single_names, IH.
Qed.

Example type_param_group :
  extractTypeParams [mkField ["K"; "V"] (Ident "comparable")]
  = Some "[K comparable, V comparable]".
Proof. reflexivity. Qed.

Lemma plainName_no_delimiter (name : string) :
  plainName name = true → strings.Contains name ", " = false.
Proof.
  induction name as [|c name IH]; [done|]. intros Hname. simpl in Hname.
  apply andb_prop in Hname as [[_ Hcomma]%andb_prop Hrest].
  rewrite Contains_cons, (IH Hrest), orb_false_r, HasPrefix_cons.
  destruct (ascii_dec "," c) as [<-|]; [done|done].
Qed.

Lemma firstPart_plainName (name : string) :
  plainName name = true → firstPart (strings.Split name " ") = name.
Proof.
  unfold strings.Split. intros Hname.
  enough (strings.splitFrom " " 0 name = [name]) as -> by done.
  induction name as [|c name IH]; [done|]. simpl in Hname.
  apply andb_prop in Hname as [[Hspace _]%andb_prop Hrest].
  rewrite splitFrom_cons, (IH Hrest), HasPrefix_cons.
  destruct (ascii_dec " " c) as [<-|]; [done|done].
Qed.

(** X6.  The names-only form is a fixed point of the projection: applied to
    a bracketed, comma-joined list of names it returns that very text. *)
Theorem names_form_fixed_point (names : list string)
    (Hnames : Forall (λ name, plainName name = true) names) :
  extractTypeParamNames ("[" +:+ strings.Join names ", " +:+ "]")
  = "[" +:+ strings.Join names ", " +:+ "]".
Proof.
  unfold extractTypeParamNames.
  rewrite TrimPrefix_bracket, TrimSuffix_bracket.
  destruct names as [|name names]; [done|].
  rewrite Split_Join_comma.
  - do 3 f_equal. induction Hnames as [|n ns Hn _ IH]; [done|].
    cbn [map]. by rewrite firstPart_plainName, IH.
  - eapply Forall_impl; [exact Hnames|]. apply plainName_no_delimiter.
Qed.

End ParamGroups.

Lemma names_form_fixed_point_witness :
  extractTypeParamNames ("[" +:+ strings.Join ["K"; "V"] ", " +:+ "]")
  = "[" +:+ strings.Join ["K"; "V"] ", " +:+ "]".
Proof.
  apply (names_form_fixed_point ["K"; "V"]). repeat constructor.
Defined.

(** ** The emitted code, further *)

Section EmittedFurther.

Ltac same_text := rewrite ?app_assoc_string; reflexivity.

Lemma runValidator_joined (s : StructInfo) (params : Emitted.aggregate) :
  runValidator s params
  = Emitted.errors_Join
      (map (λ f, Emitted.errors_New (Name f +:+ " is required"))
         (List.filter (λ f, Emitted.isNil (params (Name f)))
            (List.filter IsPointer (Fields s)))).
Proof.
  unfold runValidator, Emitted.call, validatorFunc. simpl.
  by rewrite checks_of_pointer_fields, exec_checks.
Qed.

(** X7.  The emitted constructor, linked with the emitted validator, fails
    exactly when a pointer member of the aggregate is nil: it then returns
    no instance and the joined failures of all nil pointer members, in field
    order; otherwise it returns the instance with every field copied and a
    nil error.  The value of a non-pointer member never makes it fail. *)
Theorem constructor_fails_iff_nil_pointer (s : StructInfo)
    (params : Emitted.aggregate) :
  let violated :=
    List.filter (λ f, Emitted.isNil (params (Name f)))
                (List.filter IsPointer (Fields s)) in
  Emitted.call (linked s) (constructorFunc s) params
  = Some match violated with
         | [] =>
             Emitted.RetNew
               (Some (SName s +:+ Template.useForm s,
                      map (λ f, (Name f, params (Name f))) (Fields s)))
               None
         | _ =>
             Emitted.RetNew None
               (Some (Emitted.joinError
                        (map (λ f, Emitted.errorString (Name f +:+ " is required"))
                             violated)))
         end.
Proof.
  cbv zeta. unfold Emitted.call, constructorFunc, linked. simpl.
  rewrite String.eqb_refl, runValidator_joined.
  destruct (List.filter _ (List.filter IsPointer (Fields s))) as [|f fs]; simpl.
  - by rewrite map_map.
  - done.
Qed.

Lemma Contains_within (a s b sub : string) :
  strings.Contains s sub = true → strings.Contains (a +:+ s +:+ b) sub = true.
Proof.
  intros (pre & post & ->)%Contains_inv.
  replace (a +:+ (pre +:+ sub +:+ post) +:+ b)
    with ((a +:+ pre) +:+ sub +:+ (post +:+ b)) by same_text.
  apply Contains_app.
Qed.

Lemma app_empty_r (s : string) : s +:+ "" = s.
Proof. induction s as [|c s IH]; [done|]. by rewrite app_cons, IH. Qed.

Lemma Contains_after (a s sub : string) :
  strings.Contains s sub = true → strings.Contains (a +:+ s) sub = true.
Proof.
  intros Hsub. rewrite <- (app_empty_r s). by apply Contains_within.
Qed.

Lemma triad_in_code (packageName : string) (structs : list StructInfo)
    (s : StructInfo) :
  In s structs →
  ∃ pre post, generateCode packageName structs = pre +:+ Template.triad s +:+ post.
Proof.
  unfold generateCode, Template.execute. intros Hin.
  enough (∃ pre post, foldr (λ s rest, Template.triad s +:+ rest) "" structs
                      = pre +:+ Template.triad s +:+ post) as (pre & post & ->).
  { exists (Template.preamble packageName +:+ pre), (post +:+ Template.trailer).
    same_text. }
  induction structs as [|s' structs IH]; [done|]. simpl.
  destruct Hin as [->|Hin].
  - by eexists "", _.
  - destruct (IH Hin) as (pre & post & ->).
    exists (Template.triad s' +:+ pre), post. same_text.
Qed.

Lemma check_in_range (fields : list FieldInfo) (f : FieldInfo) :
  In f fields → IsPointer f = true →
  ∃ pre post, Template.range Template.check fields
              = pre +:+ Template.nilCheck (Name f) +:+ post.
Proof.
  intros Hin Hptr. unfold Template.range.
  induction fields as [|f' fields IH]; [done|]. simpl.
  destruct Hin as [->|Hin].
  - unfold Template.check at 1. rewrite Hptr. by eexists "", _.
  - destruct (IH Hin) as (pre & post & ->).
    exists (Template.check f' +:+ pre), post. same_text.
Qed.

(** X8.  What the tests look for in the generated code is there for every
    struct record: the package clause, the aggregate type, the constructor
    and the validator, each with the declaration form where it is declared
    and the names-only form where it is used, and the nil check of every
    pointer field. *)
Theorem generated_code_declares (packageName : string)
    (structs : list StructInfo) (s : StructInfo) (Hin : In s structs) :
  let code := generateCode packageName structs in
  let N := SName s in
  let D := Template.declForm s in
  let U := Template.useForm s in
  strings.Contains code ("package " +:+ packageName) = true ∧
  strings.Contains code ("type " +:+ N +:+ "Params" +:+ D +:+ " struct {") = true ∧
  strings.Contains code
    ("func New" +:+ N +:+ D +:+ "(params " +:+ N +:+ "Params" +:+ U +:+ ")") = true ∧
  strings.Contains code
    ("func isValid" +:+ N +:+ "Params" +:+ D +:+ "(params " +:+ N +:+ "Params"
       +:+ U +:+ ")") = true ∧
  ∀ f, In f (Fields s) → IsPointer f = true →
       strings.Contains code ("if params." +:+ Name f +:+ " == nil {") = true.
Proof.
  cbv zeta. destruct (triad_in_code packageName structs s Hin) as (pre & post & Hcode).
  split.
  { unfold generateCode, Template.execute, Template.preamble.
    match goal with
    | |- strings.Contains ?text ?sub = true =>
        replace text with
          (("// Code generated by validation-gen; DO NOT EDIT." +:+ LF +:+ LF)
             +:+ sub
             +:+ (LF +:+ LF +:+ "import (" +:+ LF +:+ TAB +:+ QUOTE +:+ "errors"
                     +:+ QUOTE +:+ LF +:+ ")" +:+ LF +:+ LF
                     +:+ foldr (λ s rest, Template.triad s +:+ rest) "" structs
                     +:+ Template.trailer)) by same_text
    end.
    apply Contains_app. }
  rewrite Hcode. unfold Template.triad.
  split_and!.
  - apply Contains_within.
    apply (Contains_within "" (Template.aggregate s)). unfold Template.aggregate.
    match goal with
    | |- strings.Contains ?text ?sub = true =>
        replace text with
          ((LF +:+ "// " +:+ SName s
               +:+ "Params is the parameter struct for creating a " +:+ SName s +:+ LF)
             +:+ sub
             +:+ (Template.range Template.member (Fields s) +:+ LF +:+ "}" +:+ LF))
          by same_text
    end.
    apply Contains_app.
  - apply Contains_within.
    apply (Contains_within (Template.aggregate s) _ (Template.validator s)).
    unfold Template.constructor.
    match goal with
    | |- strings.Contains ?text ?sub = true =>
        replace text with
          ((LF +:+ "// New" +:+ SName s +:+ " creates a new " +:+ SName s +:+ LF)
             +:+ sub
             +:+ (" (*" +:+ SName s +:+ Template.useForm s +:+ ", error) {"
                    +:+ LF +:+ TAB +:+ "if err := isValid" +:+ SName s +:+ "Params"
                    +:+ Template.useForm s +:+ "(params); err != nil {"
                    +:+ LF +:+ TAB +:+ TAB +:+ "return nil, err"
                    +:+ LF +:+ TAB +:+ "}"
                    +:+ LF
                    +:+ LF +:+ TAB +:+ "return &" +:+ SName s +:+ Template.useForm s
                    +:+ "{"
                    +:+ Template.range Template.initialiser (Fields s)
                    +:+ LF +:+ TAB +:+ "}, nil"
                    +:+ LF +:+ "}" +:+ LF))
          by same_text
    end.
    apply Contains_app.
  - apply Contains_within.
    do 2 apply Contains_after. unfold Template.validator.
    match goal with
    | |- strings.Contains ?text ?sub = true =>
        replace text with
          ((LF +:+ "// isValid" +:+ SName s +:+ "Params validates the " +:+ SName s
               +:+ "Params" +:+ LF)
             +:+ sub
             +:+ (" error {"
                    +:+ LF +:+ TAB +:+ "var errs []error"
                    +:+ Template.range Template.check (Fields s)
                    +:+ LF +:+ TAB +:+ "return errors.Join(errs...)"
                    +:+ LF +:+ "}" +:+ LF))
          by same_text
    end.
    apply Contains_app.
  - intros f Hf Hptr. apply Contains_within.
    do 2 apply Contains_after. unfold Template.validator.
    destruct (check_in_range _ _ Hf Hptr) as (before & after & ->).
    unfold Template.nilCheck.
    match goal with
    | |- strings.Contains ?text ?sub = true =>
        replace text with
          ((LF +:+ "// isValid" +:+ SName s +:+ "Params validates the " +:+ SName s
               +:+ "Params"
               +:+ LF +:+ "func isValid" +:+ SName s +:+ "Params"
               +:+ Template.declForm s
               +:+ "(params " +:+ SName s +:+ "Params" +:+ Template.useForm s
               +:+ ") error {"
               +:+ LF +:+ TAB +:+ "var errs []error" +:+ before +:+ LF +:+ TAB)
             +:+ sub
             +:+ (LF +:+ TAB +:+ TAB +:+ "errs = append(errs, errors.New(" +:+ QUOTE
                    +:+ Name f +:+ " is required" +:+ QUOTE +:+ "))"
                    +:+ LF +:+ TAB +:+ "}" +:+ after
                    +:+ LF +:+ TAB +:+ "return errors.Join(errs...)"
                    +:+ LF +:+ "}" +:+ LF))
          by same_text
    end.
    apply Contains_app.
Qed.

End EmittedFurther.

Lemma generated_code_declares_witness :
  let code := generateCode "example" [Demo.serviceInfo] in
  strings.Contains code ("package " +:+ "example") = true ∧
  strings.Contains code ("type " +:+ "Service" +:+ "Params" +:+ "" +:+ " struct {")
    = true ∧
  strings.Contains code
    ("func New" +:+ "Service" +:+ "" +:+ "(params " +:+ "Service" +:+ "Params"
       +:+ "" +:+ ")") = true ∧
  strings.Contains code
    ("func isValid" +:+ "Service" +:+ "Params" +:+ "" +:+ "(params " +:+ "Service"
       +:+ "Params" +:+ "" +:+ ")") = true ∧
  ∀ f, In f (Fields Demo.serviceInfo) → IsPointer f = true →
       strings.Contains code ("if params." +:+ Name f +:+ " == nil {") = true.
Proof.
  apply (generated_code_declares "example" [Demo.serviceInfo] Demo.serviceInfo).
  simpl. by left.
Defined.

(** ** The field extractor, further *)

Section FieldRecords.
Context `{Platform}.

Lemma first_names_length (fields : list Field) :
  (length (flat_map (λ field, take 1 (Names field)) fields) ≤ length fields)%nat.
Proof.
  induction fields as [|field fields IH]; [done|]. simpl.
  rewrite List.length_app. destruct (Names field) as [|? ?]; simpl; lia.
Qed.

(** X9.  When the field loop returns, its records are named, in order, by
    the first names of the declarations whose first name is exported: no
    record for an embedded field, none under an unexported name, and at most
    one per declaration. *)
Theorem field_records_by_first_names (fields : list Field) (infos : list FieldInfo)
    (Hinfos : extractFields fields = Some infos) :
  map Name infos
    = List.filter IsExported (flat_map (λ field, take 1 (Names field)) fields) ∧
  Forall (λ f, IsExported (Name f) = true) infos ∧
  (length infos ≤ length fields)%nat.
Proof.
  pose proof (extractFields_names _ _ Hinfos) as Hnames.
  split_and!; [done|by eapply extractFields_exported|].
  rewrite <- (length_map Name), Hnames.
  etrans; [apply filter_length_le|apply first_names_length].
Qed.

End FieldRecords.

Lemma field_records_by_first_names_witness :
  map Name [mkFieldInfo "Client" "Client" true; mkFieldInfo "Timeout" "int" false]
    = List.filter (@IsExported Demo.platform)
        (flat_map (λ field, take 1 (Names field)) Demo.serviceFields) ∧
  Forall (λ f, @IsExported Demo.platform (Name f) = true)
    [mkFieldInfo "Client" "Client" true; mkFieldInfo "Timeout" "int" false] ∧
  (length [mkFieldInfo "Client" "Client" true; mkFieldInfo "Timeout" "int" false]
   ≤ length Demo.serviceFields)%nat.
Proof.
  apply (@field_records_by_first_names Demo.platform Demo.serviceFields).
  reflexivity.
Defined.

(** ** The pipeline, further *)

Section PipelineFurther.
Context `{Platform}.


(** X11.  A call of [Generate] that returns nil has put the formatted code
    of the extracted structs at [OutputFile], replacing what was there, and
    has touched no other path; whatever the outcome, only [OutputFile] can
    differ afterwards. *)
Theorem run_writes_output_only (g g' : Generator) (fs fs' : FS) (out : Outcome)
    (Hrun : Generate g fs = (out, g', fs')) :
  (∀ path, path ≠ OutputFile g → fs' !! path = fs !! path) ∧
  (out = Returned None →
   ∃ node structs formattedCode,
     ParseFile fs (InputFile g) = inr node ∧
     extractStructs node = Some structs ∧
     structs ≠ [] ∧
     format_Source (generateCode (FileName node) structs) = inr formattedCode ∧
     fs' !! OutputFile g = Some formattedCode).
Proof.
  revert Hrun. unfold Generate, os_WriteFile.
  destruct (ParseFile fs (InputFile g)) as [err|node] eqn:Hparse;
    [by intros [= <- <- <-]|].
  destruct (extractStructs node) as [structs|] eqn:Hstructs;
    [|by intros [= <- <- <-]].
  destruct (length structs =? 0)%nat eqn:Hlen; [by intros [= <- <- <-]|]. simpl.
  destruct (format_Source _) as [err|code] eqn:Hformat; [by intros [= <- <- <-]|].
  destruct (os_WriteFile_error _); intros [= <- <- <-]; [done|].
  split.
  - intros path Hpath. by rewrite lookup_insert_ne.
  - intros _. exists node, structs, code. split_and!; [done..| |done|].
    + intros ->. by apply Nat.eqb_neq in Hlen.
    + by rewrite lookup_insert_eq.
Qed.

(** X12.  Generating again is a fixed point: after a run that returned nil,
    a second run on the resulting generator and file system returns nil and
    leaves both as they are, provided the output path is not the input
    path. *)
Theorem second_run_changes_nothing (g g' : Generator) (fs fs' : FS)
    (Hrun : Generate g fs = (Returned None, g', fs'))
    (Hpaths : OutputFile g ≠ InputFile g) :
  Generate g' fs' = (Returned None, g', fs').
Proof.
  revert Hrun. unfold Generate, os_WriteFile, ParseFile.
  destruct (fs !! InputFile g) as [src|] eqn:Hsrc; [|by intros [=]].
  destruct (parser_ParseFile src) as [err|node] eqn:Hparse; [by intros [=]|].
  destruct (extractStructs node) as [structs|] eqn:Hstructs; [|by intros [=]].
  destruct (length structs =? 0)%nat eqn:Hlen; [by intros [=]|]. simpl.
  destruct (format_Source _) as [err|code] eqn:Hformat; [by intros [=]|].
  destruct (os_WriteFile_error _) eqn:Hwrite; intros [= <- <-]. simpl.
  rewrite lookup_insert_ne, Hsrc, Hparse, Hstructs, Hlen by done. simpl.
  by rewrite Hformat, Hwrite, insert_insert_eq.
Qed.

End PipelineFurther.


Lemma second_run_changes_nothing_witness :
  @Generate Demo.platform (mkGenerator "pkg/pair.go" "pkg/pair_gen.go" "demo")
     (@Generate Demo.platform
        (mkGenerator "pkg/pair.go" "pkg/pair_gen.go" "") Demo.disk).2
  = (Returned None, mkGenerator "pkg/pair.go" "pkg/pair_gen.go" "demo",
     (@Generate Demo.platform
        (mkGenerator "pkg/pair.go" "pkg/pair_gen.go" "") Demo.disk).2).
Proof.
  apply (@second_run_changes_nothing Demo.platform
           (mkGenerator "pkg/pair.go" "pkg/pair_gen.go" "")
           (mkGenerator "pkg/pair.go" "pkg/pair_gen.go" "demo") Demo.disk);
    [reflexivity|discriminate].
Defined.

Lemma run_writes_output_only_witness :
  (∀ path, path ≠ "pkg/pair_gen.go" →
           (@Generate Demo.platform
              (mkGenerator "pkg/pair.go" "pkg/pair_gen.go" "") Demo.disk).2 !! path
           = Demo.disk !! path) ∧
  (Returned None = Returned None →
   ∃ node structs formattedCode,
     @ParseFile Demo.platform Demo.disk "pkg/pair.go" = inr node ∧
     @extractStructs Demo.platform node = Some structs ∧
     structs ≠ [] ∧
     @format_Source Demo.platform (generateCode (FileName node) structs)
       = inr formattedCode ∧
     (@Generate Demo.platform
        (mkGenerator "pkg/pair.go" "pkg/pair_gen.go" "") Demo.disk).2
       !! "pkg/pair_gen.go" = Some formattedCode).
Proof.
  apply (@run_writes_output_only Demo.platform
           (mkGenerator "pkg/pair.go" "pkg/pair_gen.go" "")
           (mkGenerator "pkg/pair.go" "pkg/pair_gen.go" "demo") Demo.disk).
  reflexivity.
Defined.

(** ** The command *)

Section Command.
Context `{Platform}.

Lemma flag_Parse_undefined (flags : Flags) (args : list Arg)
    (name : string) (value : option string) :
  In (Flag name value) args → definedFlag name = false →
  ∃ code message, flag_Parse flags args = inl (code, message).
Proof.
  intros Hin Hname. revert flags.
  induction args as [|[n v] args IH]; intros flags; [done|]. simpl.
  destruct Hin as [[= -> ->]|Hin].
  - unfold definedFlag in Hname. apply orb_false_elim in Hname as [-> ->].
    destruct (_ || _); by eexists _, _.
  - destruct (String.eqb n "input"); [destruct v; [by apply IH|by eexists _, _]|].
    destruct (String.eqb n "output"); [destruct v; [by apply IH|by eexists _, _]|].
    destruct (_ || _); by eexists _, _.
Qed.

(** X13.  A command line that holds a flag other than [input] and [output]
    ([-force], say) stops in [flag.Parse]: the generator is not run and no
    file is touched. *)
Theorem undefined_flag_stops_run (GOFILE : string) (args : list Arg) (fs : FS)
    (name : string) (value : option string)
    (Hin : In (Flag name value) args)
    (Hundefined : definedFlag name = false) :
  ∃ code message, main GOFILE args fs = (FlagError code message, fs).
Proof.
  unfold main.
  destruct (flag_Parse_undefined (mkFlags (if String.eqb GOFILE "" then "./example.go"
                                           else GOFILE) "")
              args name value Hin Hundefined) as (code & message & ->).
  by exists code, message.
Qed.


(** X15.  With an [-output] flag the command runs the generator on the
    input path and that output path: the path [NewGenerator] derives from
    the input is not used, and no path but the given one can change. *)
Theorem output_flag_is_destination (GOFILE : string) (args : list Arg) (fs : FS)
    (input output : string)
    (Hflags : flag_Parse (mkFlags (if String.eqb GOFILE "" then "./example.go"
                                   else GOFILE) "") args
              = inr (mkFlags input output))
    (Hgiven : output ≠ "") :
  main GOFILE args fs
    = match Generate (mkGenerator input output "") fs with
      | (Returned (Some err), _, fs') => (Exited 1 ("Error: " +:+ err +:+ LF), fs')
      | (Returned None, g', fs') =>
          (Exited 0 ("Successfully generated " +:+ OutputFile g' +:+ " from "
                       +:+ InputFile g' +:+ LF), fs')
      | (Panicked, _, fs') => (Crashed, fs')
      end ∧
  ∀ path, path ≠ output → (main GOFILE args fs).2 !! path = fs !! path.
Proof.
  assert (main GOFILE args fs
          = match Generate (mkGenerator input output "") fs with
            | (Returned (Some err), _, fs') =>
                (Exited 1 ("Error: " +:+ err +:+ LF), fs')
            | (Returned None, g', fs') =>
                (Exited 0 ("Successfully generated " +:+ OutputFile g' +:+ " from "
                             +:+ InputFile g' +:+ LF), fs')
            | (Panicked, _, fs') => (Crashed, fs')
            end) as Hmain.
  { unfold main. rewrite Hflags. simpl.
    apply String.eqb_neq in Hgiven. rewrite Hgiven. simpl.
    rewrite Hgiven. simpl. unfold NewGenerator.
    by destruct (filepath_Split input). }
  split; [exact Hmain|]. intros path Hpath. rewrite Hmain.
  destruct (Generate (mkGenerator input output "") fs) as [[out g'] fs'] eqn:Hgen.
  assert (fs' !! path = fs !! path) as Hframe.
  { destruct out as [[err|]|].
    - by rewrite (Generate_failure_frame _ _ _ _ _ Hgen).
    - destruct (Generate_success_writes _ _ _ _ Hgen) as (? & ? & ? & _ & _ & _ & ->).
      by rewrite lookup_insert_ne.
    - by rewrite (Generate_failure_frame _ _ _ _ _ Hgen). }
  by destruct out as [[err|]|].
Qed.

End Command.

Lemma undefined_flag_stops_run_witness :
  ∃ code message,
    @main Demo.platform "" [Flag "input" (Some "pkg/pair.go"); Flag "force" None]
          Demo.disk
    = (FlagError code message, Demo.disk).
Proof.
  apply (@undefined_flag_stops_run Demo.platform "" _ Demo.disk "force" None);
    [right; by left|reflexivity].
Defined.


Lemma output_flag_is_destination_witness :
  @main Demo.platform "pkg/pair.go" [Flag "output" (Some "out/pair_params.go")]
        Demo.disk
    = match @Generate Demo.platform
              (mkGenerator "pkg/pair.go" "out/pair_params.go" "") Demo.disk with
      | (Returned (Some err), _, fs') => (Exited 1 ("Error: " +:+ err +:+ LF), fs')
      | (Returned None, g', fs') =>
          (Exited 0 ("Successfully generated " +:+ OutputFile g' +:+ " from "
                       +:+ InputFile g' +:+ LF), fs')
      | (Panicked, _, fs') => (Crashed, fs')
      end ∧
  ∀ path, path ≠ "out/pair_params.go" →
          (@main Demo.platform "pkg/pair.go"
                 [Flag "output" (Some "out/pair_params.go")] Demo.disk).2 !! path
          = Demo.disk !! path.
Proof.
  apply (@output_flag_is_destination Demo.platform "pkg/pair.go"
           [Flag "output" (Some "out/pair_params.go")] Demo.disk
           "pkg/pair.go" "out/pair_params.go");
    [reflexivity|discriminate].
Defined.

(** ** The aggregate mirrors the declared types *)

Section Mirror.
Context `{Platform}.

(** X16.  The member the template writes for a field record has the
    rendering of the type the field was declared with: the star the field
    loop strips from a pointer field is the star the template puts back. *)
Theorem member_has_declared_type (field : Field) (info : FieldInfo)
    (Hinfo : extractField field = Some [info]) :
  ∃ text, extractType (Type_ field) = Some text ∧
          Template.member info = LF +:+ TAB +:+ Name info +:+ " " +:+ text.
Proof.
  revert Hinfo. unfold extractField.
  destruct (Names field) as [|first rest]; [done|].
  destruct (IsExported first); cbn [negb]; [|done].
  destruct (Type_ field) as [n|X sel|X|len elt|k v| |X i|X args|v|fields|k];
    try (destruct (extractType _) as [text|] eqn:Htext; [|done];
         intros [= <-]; by exists text).
  cbn [extractType]. destruct (extractType X) as [t|] eqn:Ht; [|done].
  intros [= <-]. by exists ("*" +:+ t).
Qed.

End Mirror.

Lemma member_has_declared_type_witness :
  ∃ text,
    extractType (StarExpr (SelectorExpr (Ident "http") "Client")) = Some text ∧
    Template.member (mkFieldInfo "Client" "http.Client" true)
    = LF +:+ TAB +:+ "Client" +:+ " " +:+ text.
Proof.
  apply (@member_has_declared_type Demo.platform
           (mkField ["Client"] (StarExpr (SelectorExpr (Ident "http") "Client")))
           (mkFieldInfo "Client" "http.Client" true)).
  reflexivity.
Defined.

(** ** The derived output path *)

Section DerivedPath.
Context `{Platform}.

(** X17.  Without an [-output] flag the command runs the generator that
    [NewGenerator] builds for the input: the output path [main] derives
    itself is the one [NewGenerator] derived, given that the file part of a
    split path is its own base name and ends with its own extension. *)
Theorem main_derives_like_NewGenerator (GOFILE : string) (args : list Arg) (fs : FS)
    (input dir file : string)
    (Hflags : flag_Parse (mkFlags (if String.eqb GOFILE "" then "./example.go"
                                   else GOFILE) "") args
              = inr (mkFlags input ""))
    (Hsplit : filepath_Split input = (dir, file))
    (Hbase : filepath_Base file = file)
    (Hext : strings.HasSuffix file (filepath_Ext file) = true) :
  main GOFILE args fs
  = match Generate (NewGenerator input) fs with
    | (Returned (Some err), _, fs') => (Exited 1 ("Error: " +:+ err +:+ LF), fs')
    | (Returned None, g', fs') =>
        (Exited 0 ("Successfully generated " +:+ OutputFile g' +:+ " from "
                     +:+ InputFile g' +:+ LF), fs')
    | (Panicked, _, fs') => (Crashed, fs')
    end.
Proof.
  unfold main. rewrite Hflags. simpl. unfold NewGenerator.
  rewrite Hsplit, Hbase. unfold strings.TrimSuffix. rewrite Hext. simpl.
  by destruct (negb _).
Qed.

End DerivedPath.

Lemma main_derives_like_NewGenerator_witness :
  @main Demo.platform "pkg/pair.go" [] Demo.disk
  = match @Generate Demo.platform (@NewGenerator Demo.platform "pkg/pair.go")
            Demo.disk with
    | (Returned (Some err), _, fs') => (Exited 1 ("Error: " +:+ err +:+ LF), fs')
    | (Returned None, g', fs') =>
        (Exited 0 ("Successfully generated " +:+ OutputFile g' +:+ " from "
                     +:+ InputFile g' +:+ LF), fs')
    | (Panicked, _, fs') => (Crashed, fs')
    end.
Proof.
  apply (@main_derives_like_NewGenerator Demo.platform "pkg/pair.go" [] Demo.disk
           "pkg/pair.go" "pkg/" "pair.go");
    reflexivity.
Defined.
